(** * Sonic-Deck: frontend playback tracking, waveform queue, settings and
      hotkey display, embedded shallowly and verified.

    Sources embedded here:
    - [components/Dashboard.tsx]   (playback tracking, event listeners)
    - [components/Settings.tsx]    (global volume boost controls)
    - [utils/waveformQueue.ts]     (serialised get_waveform requests)
    - [utils/hotkeyDisplay.ts]     (technical <-> display hotkey strings)

    JavaScript [number]s are modelled as exact rationals ([Q]); only
    constants and comparisons occur on them in the embedded code.
    JavaScript strings are modelled as [string], read as UTF-8 bytes.
    The gain calculator is backend code that is not among these
    sources; it is modelled from the specification, over the reals. *)

From Stdlib Require Import String Ascii List ZArith QArith Lia Bool.
From Stdlib Require Import Reals Lra.
From Stdlib Require Import Sorted Permutation DecimalString.
From stdpp Require Import base gmap strings list.
Import ListNotations.

(** [number] of TypeScript. *)
Definition number : Type := Q.

(** JavaScript truthiness of a string: the empty string is falsy. *)
Definition truthy (s : string) : bool :=
  match s with
  | EmptyString => false
  | String _ _ => true
  end.

(* ===================================================================== *)
(** * [Map<string, string>] with insertion order *)
(* ===================================================================== *)

(** A JavaScript [Map] iterates in insertion order; [set] on a present key
    keeps the key's position, [delete] followed by [set] moves it to the
    end.  The handlers of the dashboard iterate over [entries()] and take
    the first match, and pick the last of [keys()], so the order is part
    of the model. *)
Module JsMap.

Definition t : Type := list (string * string).

Definition empty : t := [].

Fixpoint get (k : string) (m : t) : option string :=
  match m with
  | [] => None
  | (k', v) :: m' => if String.eqb k' k then Some v else get k m'
  end.

Definition has (k : string) (m : t) : bool :=
  match get k m with Some _ => true | None => false end.

Fixpoint set (k v : string) (m : t) : t :=
  match m with
  | [] => [(k, v)]
  | (k', v') :: m' =>
      if String.eqb k' k then (k', v) :: m' else (k', v') :: set k v m'
  end.

Fixpoint delete (k : string) (m : t) : t :=
  match m with
  | [] => []
  | (k', v') :: m' =>
      if String.eqb k' k then delete k m' else (k', v') :: delete k m'
  end.

Definition clear (_ : t) : t := [].

Definition keys (m : t) : list string := map fst m.
Definition values (m : t) : list string := map snd m.
Definition entries (m : t) : list (string * string) := m.
Definition size (m : t) : nat := length m.

(** Well-formedness: every key occurs once. *)
Definition wf (m : t) : Prop := List.NoDup (keys m).

End JsMap.

(* ===================================================================== *)
(** * Asynchronous handlers as resumptions *)
(* ===================================================================== *)

(** Commands sent to the backend through [invoke]. *)
Record PlayArgs := {
  filePath : string;
  deviceId1 : string;
  deviceId2 : string;
  pvolume : number;
  trimStartMs : option number;
  trimEndMs : option number;
}.

Inductive Command :=
| play_dual_output (args : PlayArgs)
| stop_playback (playbackId : string)
| stop_all_audio
| get_waveform (filePath : string) (numPeaks : number).

(** What an [await] waits for: a backend call or a timer. *)
Inductive Request :=
| Invoke (c : Command)
| Sleep (ms : nat).

(** How the awaited promise settles.  [Resolved] carries the returned
    string (the playback id for [play_dual_output]); [Rejected] carries
    the error, already rendered as a string. *)
Inductive Response :=
| Resolved (v : string)
| Rejected (err : string).

(** An [async] function body over a store [S]: it runs synchronously to
    its next [await], leaving a request and a continuation that is run
    when the promise settles. *)
#[local] Unset Elimination Schemes.
Inductive Task (S : Type) : Type :=
| Done
| Await (r : Request) (k : Response -> S -> S * Task S).
#[local] Set Elimination Schemes.
Arguments Done {S}.
Arguments Await {S} r k.

(** Run a task to completion with every awaited promise settled by
    [oracle], nothing else running in between.  The result is the final
    store and, for every request, the store at the moment the request was
    issued. *)
Fixpoint run {S : Type} (oracle : Request -> Response)
    (t : Task S) (st : S) : S * list (S * Request) :=
  match t with
  | Done => (st, [])
  | Await r k =>
      match k (oracle r) st with
      | (st', t') =>
          let (final, trace) := run oracle t' st' in
          (final, (st, r) :: trace)
      end
  end.

(** An asynchronous handler, started on a store and run to completion. *)
Definition exec {S : Type} (oracle : Request -> Response)
    (h : S -> S * Task S) (st : S) : S * list (S * Request) :=
  match h st with
  | (st', t) => run oracle t st'
  end.

(* ===================================================================== *)
(** * Dashboard: playback tracking *)
(* ===================================================================== *)

Module Dashboard.

(** [Sound] of [types.ts]. *)
Record Sound := {
  sound_id : string;
  sound_name : string;
  file_path : string;
  category_id : string;
  icon : option string;
  sound_volume : option number;
  is_favorite : bool;
  trim_start_ms : option number;
  trim_end_ms : option number;
}.

(** Payload of the [playback-progress] event. *)
Record PlaybackProgress := {
  playback_id : string;
  elapsed_ms : number;
  total_ms : number;
  progress_pct : number;
}.

(** Active waveform shown in the header. *)
Record ActiveWaveform := {
  soundId : string;
  soundName : string;
  wfFilePath : string;
  currentTimeMs : number;
  durationMs : number;
  wfTrimStartMs : option number;
  wfTrimEndMs : option number;
}.

(** Callbacks handed to [setTimeout(..., 300)]. *)
Inductive TimerCallback :=
| ResetWaveformExiting            (* setIsWaveformExiting(false) *)
| ClearWaveformAndExiting.        (* setActiveWaveform(null); setIsWaveformExiting(false) *)

(** Props and state of the component that the audio handlers touch. *)
Record State := {
  device1 : string;
  device2 : string;
  volume : number;
  soundLibrary : list Sound;
  playingSoundIds : gset string;
  playingSoundsRef : JsMap.t;          (* sound_id -> playback_id *)
  activeWaveform : option ActiveWaveform;
  isWaveformExiting : bool;
  toastMessage : option string;
  timers : list TimerCallback;
}.

Definition setPlayingSoundIds (f : gset string -> gset string) (st : State) : State :=
  {| device1 := device1 st; device2 := device2 st; volume := volume st;
     soundLibrary := soundLibrary st;
     playingSoundIds := f (playingSoundIds st);
     playingSoundsRef := playingSoundsRef st;
     activeWaveform := activeWaveform st;
     isWaveformExiting := isWaveformExiting st;
     toastMessage := toastMessage st; timers := timers st |}.

Definition updPlayingSoundsRef (f : JsMap.t -> JsMap.t) (st : State) : State :=
  {| device1 := device1 st; device2 := device2 st; volume := volume st;
     soundLibrary := soundLibrary st;
     playingSoundIds := playingSoundIds st;
     playingSoundsRef := f (playingSoundsRef st);
     activeWaveform := activeWaveform st;
     isWaveformExiting := isWaveformExiting st;
     toastMessage := toastMessage st; timers := timers st |}.

Definition putActiveWaveform (w : option ActiveWaveform) (st : State) : State :=
  {| device1 := device1 st; device2 := device2 st; volume := volume st;
     soundLibrary := soundLibrary st;
     playingSoundIds := playingSoundIds st;
     playingSoundsRef := playingSoundsRef st;
     activeWaveform := w;
     isWaveformExiting := isWaveformExiting st;
     toastMessage := toastMessage st; timers := timers st |}.

Definition setIsWaveformExiting (b : bool) (st : State) : State :=
  {| device1 := device1 st; device2 := device2 st; volume := volume st;
     soundLibrary := soundLibrary st;
     playingSoundIds := playingSoundIds st;
     playingSoundsRef := playingSoundsRef st;
     activeWaveform := activeWaveform st;
     isWaveformExiting := b;
     toastMessage := toastMessage st; timers := timers st |}.

Definition showToast (message : string) (st : State) : State :=
  {| device1 := device1 st; device2 := device2 st; volume := volume st;
     soundLibrary := soundLibrary st;
     playingSoundIds := playingSoundIds st;
     playingSoundsRef := playingSoundsRef st;
     activeWaveform := activeWaveform st;
     isWaveformExiting := isWaveformExiting st;
     toastMessage := Some message; timers := timers st |}.

Definition setTimeout (cb : TimerCallback) (st : State) : State :=
  {| device1 := device1 st; device2 := device2 st; volume := volume st;
     soundLibrary := soundLibrary st;
     playingSoundIds := playingSoundIds st;
     playingSoundsRef := playingSoundsRef st;
     activeWaveform := activeWaveform st;
     isWaveformExiting := isWaveformExiting st;
     toastMessage := toastMessage st; timers := timers st ++ [cb] |}.

Definition setProps (d1 d2 : string) (v : number) (lib : list Sound)
    (st : State) : State :=
  {| device1 := d1; device2 := d2; volume := v;
     soundLibrary := lib;
     playingSoundIds := playingSoundIds st;
     playingSoundsRef := playingSoundsRef st;
     activeWaveform := activeWaveform st;
     isWaveformExiting := isWaveformExiting st;
     toastMessage := toastMessage st; timers := timers st |}.

(** State of a freshly mounted component. *)
Definition initial (d1 d2 : string) (lib : list Sound) : State :=
  {| device1 := d1; device2 := d2; volume := 0.5%Q;
     soundLibrary := lib;
     playingSoundIds := ∅;
     playingSoundsRef := JsMap.empty;
     activeWaveform := None;
     isWaveformExiting := false;
     toastMessage := None; timers := [] |}.

(** The waveform record built for a sound (the three branches of the
    updater in [playSound] and the switch in the completion handler
    all build this record). *)
Definition waveformOf (sound : Sound) : ActiveWaveform :=
  {| soundId := sound_id sound;
     soundName := sound_name sound;
     wfFilePath := file_path sound;
     currentTimeMs := 0%Q;
     durationMs := 0%Q;
     wfTrimStartMs := trim_start_ms sound;    (* ?? null *)
     wfTrimEndMs := trim_end_ms sound |}.

(** [for (const [sid, pid] of ref.entries()) if (pid === p) { ...; break }] *)
Fixpoint findSoundId (p : string) (entries : list (string * string)) : option string :=
  match entries with
  | [] => None
  | (sid, pid) :: rest =>
      if String.eqb pid p then Some sid else findSoundId p rest
  end.

(** [soundLibrary.sounds.find((s) => s.id === id)] *)
Fixpoint findSound (i : string) (sounds : list Sound) : option Sound :=
  match sounds with
  | [] => None
  | s :: rest => if String.eqb (sound_id s) i then Some s else findSound i rest
  end.

(** Arguments of the [play_dual_output] call of [playSound]. *)
Definition playArgs (d1 d2 : string) (vol : number) (sound : Sound) : PlayArgs :=
  {| filePath := file_path sound;
     deviceId1 := d1;
     deviceId2 := d2;
     pvolume := match sound_volume sound with Some v => v | None => vol end;
     trimStartMs := trim_start_ms sound;
     trimEndMs := trim_end_ms sound |}.

(** "Clean up tracking" of the restart branch and of the error branch. *)
Definition untrack (sid : string) (st : State) : State :=
  setPlayingSoundIds (fun prev => prev ∖ {[sid]})
    (updPlayingSoundsRef (JsMap.delete sid) st).

(** The [// Start playback] block of [playSound]; [d1], [d2], [vol] are
    the values captured by the callback. *)
Definition startPlayback (d1 d2 : string) (vol : number) (sound : Sound)
    (st : State) : State * Task State :=
  let st1 := setPlayingSoundIds (fun prev => prev ∪ {[sound_id sound]}) st in
  (st1,
   Await (Invoke (play_dual_output (playArgs d1 d2 vol sound)))
     (fun r st2 =>
        match r with
        | Resolved playbackId =>
            (putActiveWaveform (Some (waveformOf sound))
               (updPlayingSoundsRef (JsMap.set (sound_id sound) playbackId) st2),
             Done)
        | Rejected error =>
            (untrack (sound_id sound) (showToast ("Error: " +:+ error) st2),
             Done)
        end)).

Definition playSound (sound : Sound) (st : State) : State * Task State :=
  let d1 := device1 st in
  let d2 := device2 st in
  let vol := volume st in
  if negb (truthy d1) || negb (truthy d2) then
    (showToast "Please configure audio devices in Settings first" st, Done)
  else
    match JsMap.get (sound_id sound) (playingSoundsRef st) with
    | Some currentPlaybackId =>
        if truthy currentPlaybackId then
          (st,
           Await (Invoke (stop_playback currentPlaybackId))
             (fun r st1 =>
                match r with
                | Resolved _ =>
                    (untrack (sound_id sound) st1,
                     Await (Sleep 100)
                       (fun _ st2 => startPlayback d1 d2 vol sound st2))
                | Rejected _ => startPlayback d1 d2 vol sound st1
                end))
        else startPlayback d1 d2 vol sound st
    | None => startPlayback d1 d2 vol sound st
    end.

Definition stopAllAudio (st : State) : State * Task State :=
  (st,
   Await (Invoke stop_all_audio)
     (fun r st1 =>
        match r with
        | Resolved _ =>
            (showToast "All audio stopped"
               (setTimeout ClearWaveformAndExiting
                  (setIsWaveformExiting true
                     (setPlayingSoundIds (fun _ => ∅)
                        (updPlayingSoundsRef JsMap.clear st1)))),
             Done)
        | Rejected error => (showToast ("Stop Error: " +:+ error) st1, Done)
        end)).

(** Updater passed to [setActiveWaveform] by the completion handler,
    run on the store after the ref and the set were cleaned. *)
Definition completeWaveform (sid : string) (st : State) : State :=
  match activeWaveform st with
  | Some prev =>
      if String.eqb (soundId prev) sid then
        let otherPlayingSounds :=
          List.filter (fun i => negb (String.eqb i sid))
                 (JsMap.keys (playingSoundsRef st)) in
        let exit_ :=
          putActiveWaveform None
            (setTimeout ResetWaveformExiting (setIsWaveformExiting true st)) in
        match last otherPlayingSounds with
        | Some nextSoundId =>
            match findSound nextSoundId (soundLibrary st) with
            | Some nextSound => putActiveWaveform (Some (waveformOf nextSound)) st
            | None => exit_
            end
        | None => exit_
        end
      else st
  | None => st
  end.

(** Listener of [playback-complete]. *)
Definition onPlaybackComplete (completedPlaybackId : string) (st : State) : State :=
  match findSoundId completedPlaybackId (JsMap.entries (playingSoundsRef st)) with
  | Some sid =>
      if truthy sid then completeWaveform sid (untrack sid st)
      else st
  | None => st
  end.

(** Listener of [playback-progress]. *)
Definition onPlaybackProgress (ev : PlaybackProgress) (st : State) : State :=
  match findSoundId (playback_id ev) (JsMap.entries (playingSoundsRef st)) with
  | Some sid =>
      match activeWaveform st with
      | Some prev =>
          if String.eqb (soundId prev) sid then
            putActiveWaveform
              (Some {| soundId := soundId prev;
                       soundName := soundName prev;
                       wfFilePath := wfFilePath prev;
                       currentTimeMs := elapsed_ms ev;
                       durationMs := total_ms ev;
                       wfTrimStartMs := wfTrimStartMs prev;
                       wfTrimEndMs := wfTrimEndMs prev |}) st
          else st
      | None => st
      end
  | None => st
  end.

(** Listener of [audio-decode-error]. *)
Definition onDecodeError (payload : string) (st : State) : State :=
  showToast ("Decode Error: " +:+ payload) st.

(** A 300 ms timer fires: the oldest pending callback runs. *)
Definition fireTimer (st : State) : State :=
  match timers st with
  | [] => st
  | cb :: rest =>
      let st1 :=
        {| device1 := device1 st; device2 := device2 st; volume := volume st;
           soundLibrary := soundLibrary st;
           playingSoundIds := playingSoundIds st;
           playingSoundsRef := playingSoundsRef st;
           activeWaveform := activeWaveform st;
           isWaveformExiting := isWaveformExiting st;
           toastMessage := toastMessage st; timers := rest |} in
      match cb with
      | ResetWaveformExiting => setIsWaveformExiting false st1
      | ClearWaveformAndExiting =>
          setIsWaveformExiting false (putActiveWaveform None st1)
      end
  end.

(** The [play_dual_output] commands among the requests of a trace. *)
Definition playCommands (trace : list (State * Request)) : list PlayArgs :=
  flat_map (fun e => match snd e with
                     | Invoke (play_dual_output args) => [args]
                     | _ => []
                     end) trace.

(** Payload of an event of the Tauri event system. *)
Inductive Payload :=
| PString (s : string)
| PProgress (ev : PlaybackProgress).

(** The audio listeners registered by the [useEffect] of the
    component, in registration order, under the names they are
    registered with.  (The three [tauri://drag...] listeners of the
    same effect act on the import dialog only and are left out.) *)
Definition listeners : list (string * (Payload -> State -> State)) :=
  [ ("audio-decode-complete", fun _ st => st);      (* DEBUG log only *)
    ("audio-decode-error",
      fun p st => match p with PString s => onDecodeError s st | _ => st end);
    ("playback-complete",
      fun p st => match p with PString s => onPlaybackComplete s st | _ => st end);
    ("playback-progress",
      fun p st => match p with PProgress ev => onPlaybackProgress ev st | _ => st end) ].

(** The backend emits [event] with [payload]: every listener
    registered under exactly that name runs. *)
Definition emit (event : string) (payload : Payload) (st : State) : State :=
  fold_left
    (fun acc l => if String.eqb (fst l) event then snd l payload acc else acc)
    listeners st.

(** Operations on the component, each run to completion. *)
Inductive Op :=
| OpPlaySound (sound : Sound) (oracle : Request -> Response)
| OpStopAllAudio (oracle : Request -> Response)
| OpEmit (event : string) (payload : Payload)
| OpTimer
| OpProps (d1 d2 : string) (v : number) (lib : list Sound).

Definition apply (st : State) (op : Op) : State :=
  match op with
  | OpPlaySound sound oracle => fst (exec oracle (playSound sound) st)
  | OpStopAllAudio oracle => fst (exec oracle stopAllAudio st)
  | OpEmit event payload => emit event payload st
  | OpTimer => fireTimer st
  | OpProps d1 d2 v lib => setProps d1 d2 v lib st
  end.

Definition after (ops : list Op) (st : State) : State := fold_left apply ops st.

(** The tracking invariant: one entry per sound id in the ref, and
    every id of the playing set has an entry in the ref. *)
Definition tracked (st : State) : Prop :=
  JsMap.wf (playingSoundsRef st) /\
  forall sid, sid ∈ playingSoundIds st ->
              JsMap.has sid (playingSoundsRef st) = true.

(** The invariant as it stands between the optimistic add of [sid]
    to the playing set and the answer to the play command. *)
Definition trackedBut (sid : string) (st : State) : Prop :=
  JsMap.wf (playingSoundsRef st) /\
  forall s, s ∈ playingSoundIds st ->
            s = sid \/ JsMap.has s (playingSoundsRef st) = true.

(** Number of playback ids held for a sound id. *)
Definition idsFor (sid : string) (st : State) : nat :=
  length (List.filter (fun e => String.eqb (fst e) sid) (playingSoundsRef st)).

(** Number of active sessions the component tracks. *)
Definition activeCount (st : State) : nat := JsMap.size (playingSoundsRef st).


(** ** Handlers interleaved

    Between the [await]s of one call of [playSound] or
    [stopAllAudio] other handlers run.  [Sys] keeps, next to the
    store, the continuations that wait for a promise. *)
Definition Cont : Type := Response -> State -> State * Task State.

Record Sys := {
  store : State;
  pending : list (Request * Cont);
}.

(** What a task leaves waiting. *)
Definition suspended (t : Task State) : list (Request * Cont) :=
  match t with
  | Done => []
  | Await r k => [(r, k)]
  end.

(** A handler is called: it runs to its first [await]. *)
Definition call (h : State -> State * Task State) (sys : Sys) : Sys :=
  match h (store sys) with
  | (st', t) => {| store := st'; pending := pending sys ++ suspended t |}
  end.

(** The [i]-th waiting promise settles: its continuation runs to the
    next [await]. *)
Definition resume (i : nat) (resp : Response) (sys : Sys) : Sys :=
  match pending sys !! i with
  | Some (_, k) =>
      match k resp (store sys) with
      | (st', t) =>
          {| store := st'; pending := delete i (pending sys) ++ suspended t |}
      end
  | None => sys
  end.

Inductive SysEvent :=
| CallPlaySound (sound : Sound)
| CallStopAllAudio
| Settles (i : nat) (resp : Response)
| Emitted (event : string) (payload : Payload)
| TimerFires
| PropsChange (d1 d2 : string) (v : number) (lib : list Sound).

Definition sysStep (sys : Sys) (e : SysEvent) : Sys :=
  match e with
  | CallPlaySound sound => call (playSound sound) sys
  | CallStopAllAudio => call stopAllAudio sys
  | Settles i resp => resume i resp sys
  | Emitted event payload =>
      {| store := emit event payload (store sys); pending := pending sys |}
  | TimerFires => {| store := fireTimer (store sys); pending := pending sys |}
  | PropsChange d1 d2 v lib =>
      {| store := setProps d1 d2 v lib (store sys); pending := pending sys |}
  end.

Definition sysRun (es : list SysEvent) (st : State) : Sys :=
  fold_left sysStep es {| store := st; pending := [] |}.




End Dashboard.

(* ===================================================================== *)
(** * WaveformQueue: one [get_waveform] call at a time *)
(* ===================================================================== *)

Module WaveformQueue.

Record WaveformData := {
  peaks : list number;
  duration_ms : number;
}.

(** [resolve] and [reject] of an item belong to the promise made by
    one call of [add]; [ticket] stands for that pair. *)
Record QueueItem := {
  filePath : string;
  numPeaks : number;
  ticket : nat;
}.

(** How the awaited [invoke("get_waveform", ...)] settles. *)
Inductive InvokeResult :=
| Returned (data : WaveformData)
| Thrown (error : string).

(** What the promise of [add] is settled with. *)
Inductive Settlement :=
| resolve (data : WaveformData)
| reject (error : string).

(** A suspended activation of [process]: at the [await invoke] with
    the item it shifted, or at the [await] of the 20 ms delay. *)
Inductive Proc :=
| AwaitInvoke (item : QueueItem)
| AwaitDelay (ms : nat).

(** [private readonly delay = 20] *)
Definition delay : nat := 20.

(** The fields of the class, the suspended activations of [process],
    and two logs of what was done to the outside: the backend calls
    issued and the promises settled, oldest first. *)
Record State := {
  queue : list QueueItem;
  isProcessing : bool;
  procs : list Proc;
  invoked : list Command;
  settled : list (QueueItem * Settlement);
}.

Definition initial : State :=
  {| queue := []; isProcessing := false; procs := [];
     invoked := []; settled := [] |}.

(** Head of the [while] loop of [process], up to the next [await]. *)
Definition loop (st : State) : State :=
  match queue st with
  | item :: rest =>                                   (* queue.shift() *)
      {| queue := rest;
         isProcessing := isProcessing st;
         procs := procs st ++ [AwaitInvoke item];
         invoked := invoked st ++ [get_waveform (filePath item) (numPeaks item)];
         settled := settled st |}
  | [] =>
      {| queue := [];
         isProcessing := false;
         procs := procs st;
         invoked := invoked st;
         settled := settled st |}
  end.

(** [process()] up to its first [await] or its return. *)
Definition process (st : State) : State :=
  if isProcessing st || Nat.eqb (length (queue st)) 0 then st
  else
    loop {| queue := queue st; isProcessing := true; procs := procs st;
            invoked := invoked st; settled := settled st |}.

(** [add(filePath, numPeaks)]: push, then call [process()]. *)
Definition add (item : QueueItem) (st : State) : State :=
  process {| queue := queue st ++ [item];
             isProcessing := isProcessing st; procs := procs st;
             invoked := invoked st; settled := settled st |}.

Definition settle (r : InvokeResult) : Settlement :=
  match r with
  | Returned data => resolve data
  | Thrown error => reject error
  end.

Fixpoint remove_nth {A : Type} (i : nat) (l : list A) : list A :=
  match l, i with
  | [], _ => []
  | _ :: l', O => l'
  | x :: l', S i' => x :: remove_nth i' l'
  end.

(** The [i]-th suspended activation is resumed because its backend
    call settled: the item is resolved or rejected, then either the
    delay is awaited or the loop ends. *)
Definition invokeSettles (i : nat) (r : InvokeResult) (st : State) : State :=
  match nth_error (procs st) i with
  | Some (AwaitInvoke item) =>
      let settled' := settled st ++ [(item, settle r)] in
      let procs' := remove_nth i (procs st) in
      if Nat.ltb 0 (length (queue st)) then
        {| queue := queue st; isProcessing := isProcessing st;
           procs := procs' ++ [AwaitDelay delay];
           invoked := invoked st; settled := settled' |}
      else
        loop {| queue := queue st; isProcessing := isProcessing st;
                procs := procs';
                invoked := invoked st; settled := settled' |}
  | _ => st
  end.

(** The [i]-th suspended activation is resumed because its delay
    elapsed: back to the head of the loop. *)
Definition delayElapses (i : nat) (st : State) : State :=
  match nth_error (procs st) i with
  | Some (AwaitDelay _) =>
      loop {| queue := queue st; isProcessing := isProcessing st;
              procs := remove_nth i (procs st);
              invoked := invoked st; settled := settled st |}
  | _ => st
  end.

(** What can happen to the queue, in any order. *)
Inductive Event :=
| Add (item : QueueItem)
| InvokeSettles (i : nat) (r : InvokeResult)
| DelayElapses (i : nat).

Definition step (st : State) (e : Event) : State :=
  match e with
  | Add item => add item st
  | InvokeSettles i r => invokeSettles i r st
  | DelayElapses i => delayElapses i st
  end.

Definition runEvents (es : list Event) : State := fold_left step es initial.

(** Items handed to [add], oldest first. *)
Fixpoint added (es : list Event) : list QueueItem :=
  match es with
  | [] => []
  | Add item :: es' => item :: added es'
  | _ :: es' => added es'
  end.

(** Items whose backend call is outstanding. *)
Fixpoint inflight (ps : list Proc) : list QueueItem :=
  match ps with
  | [] => []
  | AwaitInvoke item :: ps' => item :: inflight ps'
  | AwaitDelay _ :: ps' => inflight ps'
  end.


Definition callOf (item : QueueItem) : Command :=
  get_waveform (filePath item) (numPeaks item).

(** What holds of the queue after any events, [a] being the items
    added so far: nothing is lost or duplicated, calls were issued
    for the settled and outstanding items in order, and [process] is
    idle with an empty queue, or suspended at its backend call, or
    suspended at its delay with work left. *)
Definition consistent (a : list QueueItem) (st : State) : Prop :=
  a = map fst (settled st) ++ inflight (procs st) ++ queue st /\
  invoked st = map callOf (map fst (settled st) ++ inflight (procs st)) /\
  ((procs st = [] /\ isProcessing st = false /\ queue st = []) \/
   (exists item, procs st = [AwaitInvoke item] /\ isProcessing st = true) \/
   (procs st = [AwaitDelay delay] /\ isProcessing st = true /\ queue st <> [])).


End WaveformQueue.

(* ===================================================================== *)
(** * Settings: global volume boost *)
(* ===================================================================== *)

Module Settings.

(** [AppSettings] of [types.ts]. *)
Record AppSettings := {
  monitor_device_id : option string;
  broadcast_device_id : option string;
  default_volume : number;
  volume_multiplier : number;
  last_file_path : option string;
  minimize_to_tray : bool;
  start_minimized : bool;
  autostart_enabled : bool;
}.

(** Initial value of [useState<AppSettings>]. *)
Definition initialSettings : AppSettings :=
  {| monitor_device_id := None;
     broadcast_device_id := None;
     default_volume := 0.5%Q;
     volume_multiplier := 1.0%Q;
     last_file_path := None;
     minimize_to_tray := false;
     start_minimized := false;
     autostart_enabled := false |}.

(** [keyof AppSettings] and [AppSettings[K]]. *)
Inductive Key :=
| k_monitor_device_id | k_broadcast_device_id | k_default_volume
| k_volume_multiplier | k_last_file_path | k_minimize_to_tray
| k_start_minimized | k_autostart_enabled.

Definition Value (k : Key) : Type :=
  match k with
  | k_monitor_device_id | k_broadcast_device_id | k_last_file_path => option string
  | k_default_volume | k_volume_multiplier => number
  | k_minimize_to_tray | k_start_minimized | k_autostart_enabled => bool
  end.

(** [setSettings((prev) => ({ ...prev, [key]: value }))] *)
Definition updateSetting (key : Key) : Value key -> AppSettings -> AppSettings :=
  match key with
  | k_monitor_device_id => fun v prev =>
      {| monitor_device_id := v; broadcast_device_id := broadcast_device_id prev;
         default_volume := default_volume prev; volume_multiplier := volume_multiplier prev;
         last_file_path := last_file_path prev; minimize_to_tray := minimize_to_tray prev;
         start_minimized := start_minimized prev; autostart_enabled := autostart_enabled prev |}
  | k_broadcast_device_id => fun v prev =>
      {| monitor_device_id := monitor_device_id prev; broadcast_device_id := v;
         default_volume := default_volume prev; volume_multiplier := volume_multiplier prev;
         last_file_path := last_file_path prev; minimize_to_tray := minimize_to_tray prev;
         start_minimized := start_minimized prev; autostart_enabled := autostart_enabled prev |}
  | k_default_volume => fun v prev =>
      {| monitor_device_id := monitor_device_id prev; broadcast_device_id := broadcast_device_id prev;
         default_volume := v; volume_multiplier := volume_multiplier prev;
         last_file_path := last_file_path prev; minimize_to_tray := minimize_to_tray prev;
         start_minimized := start_minimized prev; autostart_enabled := autostart_enabled prev |}
  | k_volume_multiplier => fun v prev =>
      {| monitor_device_id := monitor_device_id prev; broadcast_device_id := broadcast_device_id prev;
         default_volume := default_volume prev; volume_multiplier := v;
         last_file_path := last_file_path prev; minimize_to_tray := minimize_to_tray prev;
         start_minimized := start_minimized prev; autostart_enabled := autostart_enabled prev |}
  | k_last_file_path => fun v prev =>
      {| monitor_device_id := monitor_device_id prev; broadcast_device_id := broadcast_device_id prev;
         default_volume := default_volume prev; volume_multiplier := volume_multiplier prev;
         last_file_path := v; minimize_to_tray := minimize_to_tray prev;
         start_minimized := start_minimized prev; autostart_enabled := autostart_enabled prev |}
  | k_minimize_to_tray => fun v prev =>
      {| monitor_device_id := monitor_device_id prev; broadcast_device_id := broadcast_device_id prev;
         default_volume := default_volume prev; volume_multiplier := volume_multiplier prev;
         last_file_path := last_file_path prev; minimize_to_tray := v;
         start_minimized := start_minimized prev; autostart_enabled := autostart_enabled prev |}
  | k_start_minimized => fun v prev =>
      {| monitor_device_id := monitor_device_id prev; broadcast_device_id := broadcast_device_id prev;
         default_volume := default_volume prev; volume_multiplier := volume_multiplier prev;
         last_file_path := last_file_path prev; minimize_to_tray := minimize_to_tray prev;
         start_minimized := v; autostart_enabled := autostart_enabled prev |}
  | k_autostart_enabled => fun v prev =>
      {| monitor_device_id := monitor_device_id prev; broadcast_device_id := broadcast_device_id prev;
         default_volume := default_volume prev; volume_multiplier := volume_multiplier prev;
         last_file_path := last_file_path prev; minimize_to_tray := minimize_to_tray prev;
         start_minimized := start_minimized prev; autostart_enabled := v |}
  end.

(** An [<input type="range">] with its [min], [max] and [step]
    attributes.  The element reports only values between [min] and
    [max]; [parseFloat(e.target.value)] is that value. *)
Record RangeInput := {
  rmin : number;
  rmax : number;
  rstep : number;
}.

Definition reports (r : RangeInput) (v : number) : Prop :=
  (rmin r <= v)%Q /\ (v <= rmax r)%Q.

(** The slider of the "Global Volume Boost" block. *)
Definition boostSlider : RangeInput :=
  {| rmin := 1.1%Q; rmax := 3.0%Q; rstep := 0.1%Q |}.

(** [{settings.volume_multiplier > 1.0 && ( <input type="range" .../> )}] *)
Definition boostSliderRendered (s : AppSettings) : Prop :=
  (1.0 < volume_multiplier s)%Q.

(** [onChange] of the boost checkbox. *)
Definition onBoostToggle (checked : bool) (s : AppSettings) : AppSettings :=
  updateSetting k_volume_multiplier (if checked then 2.0%Q else 1.0%Q) s.

(** [onChange] of the boost slider, [value] being
    [parseFloat(e.target.value)]. *)
Definition onBoostSlider (value : number) (s : AppSettings) : AppSettings :=
  updateSetting k_volume_multiplier value s.

(** Interactions with the two boost controls. *)
Inductive BoostEvent :=
| ToggleBoost (checked : bool)
| SlideBoost (value : number).

(** What the rendered controls can deliver in a given state. *)
Definition deliverable (s : AppSettings) (e : BoostEvent) : Prop :=
  match e with
  | ToggleBoost _ => True
  | SlideBoost v => boostSliderRendered s /\ reports boostSlider v
  end.

Definition handle (e : BoostEvent) (s : AppSettings) : AppSettings :=
  match e with
  | ToggleBoost checked => onBoostToggle checked s
  | SlideBoost v => onBoostSlider v s
  end.

(** Settings states produced by the boost handlers. *)
Inductive produced : AppSettings -> Prop :=
| produced_by (s : AppSettings) (e : BoostEvent) :
    deliverable s e -> produced (handle e s).

End Settings.

(* ===================================================================== *)
(** * Gain calculator *)
(* ===================================================================== *)

Module GainCalculator.

Local Open Scope R_scope.

Section Gain.

(** The clipping-safe ceiling; the specification fixes no value. *)
Variable ceiling : R.

(** Modelled from the spec: the fixed safety attenuation of the
    gain calculator (the calculator is backend code, absent from
    the sources embedded here). *)
Definition SAFETY_ATTENUATION : R := 0.2.

(** Modelled from the spec: the fourth-power perceptual slider
    curve scaled by the safety attenuation. *)
Definition slider_curve (slider : R) : R :=
  slider ^ 4 * SAFETY_ATTENUATION.

(** Modelled from the spec: [10^((target - v)/20)] clamped to
    [0.1, 4.0] when normalization is enabled and the loudness is
    known, [1.0] otherwise. *)
Definition loudness_gain (loudness : option R)
    (normalization_enabled : bool) (target_loudness : R) : R :=
  match normalization_enabled, loudness with
  | true, Some v =>
      Rmax 0.1 (Rmin 4.0 (Rpower 10 ((target_loudness - v) / 20)))
  | _, _ => 1.0
  end.

(** Modelled from the spec: [compute_gain] of the gain calculator,
    the product of the four factors, hard-clamped to the ceiling. *)
Definition compute_gain (slider per_sound_volume global_multiplier : R)
    (loudness : option R) (normalization_enabled : bool)
    (target_loudness : R) : R :=
  Rmin ceiling
    (slider_curve slider * global_multiplier
     * loudness_gain loudness normalization_enabled target_loudness
     * per_sound_volume).

End Gain.

End GainCalculator.

(* ===================================================================== *)
(** * Hotkey display strings *)
(* ===================================================================== *)

Module HotkeyDisplay.

(** ** The string built-ins the two functions use *)

Definition code (a : ascii) : N := N_of_ascii a.

(** One-byte WhiteSpace and LineTerminator code points:
    TAB, LF, VT, FF, CR, SP. *)
Definition ws1 (a : ascii) : bool :=
  let x := code a in
  ((9 <=? x) && (x <=? 13) || (x =? 32))%N.

(** U+00A0 is the only two-byte one. *)
Definition lead2 (a : ascii) : bool := (code a =? 194)%N.
Definition ws2 (a b : ascii) : bool :=
  ((code a =? 194) && (code b =? 160))%N.

(** Three-byte ones: U+1680, U+2000..U+200A, U+2028, U+2029, U+202F,
    U+205F, U+3000, U+FEFF. *)
Definition lead3 (a : ascii) : bool :=
  let x := code a in
  ((x =? 225) || (x =? 226) || (x =? 227) || (x =? 239))%N.
Definition ws3 (a b c : ascii) : bool :=
  let x := code a in
  let y := code b in
  let z := code c in
  ((x =? 225) && (y =? 154) && (z =? 128)
   || (x =? 226) && (y =? 128)
      && ((128 <=? z) && (z <=? 138) || (z =? 168) || (z =? 169) || (z =? 175))
   || (x =? 226) && (y =? 129) && (z =? 159)
   || (x =? 227) && (y =? 128) && (z =? 128)
   || (x =? 239) && (y =? 187) && (z =? 191))%N.

Fixpoint trimStart (s : string) : string :=
  match s with
  | EmptyString => EmptyString
  | String a r =>
      if ws1 a then trimStart r
      else if lead2 a then
        match r with
        | String b r2 => if ws2 a b then trimStart r2 else s
        | EmptyString => s
        end
      else if lead3 a then
        match r with
        | String b (String c r3) => if ws3 a b c then trimStart r3 else s
        | _ => s
        end
      else s
  end.

(** The string consists of white space only. *)
Fixpoint allWs (s : string) : bool :=
  match s with
  | EmptyString => true
  | String a r =>
      if ws1 a then allWs r
      else if lead2 a then
        match r with
        | String b r2 => ws2 a b && allWs r2
        | EmptyString => false
        end
      else if lead3 a then
        match r with
        | String b (String c r3) => ws3 a b c && allWs r3
        | _ => false
        end
      else false
  end.

Fixpoint trimEnd (s : string) : string :=
  match s with
  | EmptyString => EmptyString
  | String a r => if allWs s then EmptyString else String a (trimEnd r)
  end.

(** [s.trim()] *)
Definition trim (s : string) : string := trimEnd (trimStart s).

(** [s.startsWith(p)] *)
Fixpoint startsWith (p s : string) : bool :=
  match p with
  | EmptyString => true
  | String a p' =>
      match s with
      | EmptyString => false
      | String b s' => Ascii.eqb a b && startsWith p' s'
      end
  end.

Fixpoint dropChars (n : nat) (s : string) : string :=
  match n, s with
  | S n', String _ s' => dropChars n' s'
  | _, _ => s
  end.

(** [s.replace(pat, rep)] with a string pattern: the first occurrence. *)
Fixpoint replace (pat rep s : string) : string :=
  if startsWith pat s then rep +:+ dropChars (String.length pat) s
  else match s with
       | EmptyString => EmptyString
       | String c s' => String c (replace pat rep s')
       end.

(** [s.split(sep)] for a separator that is not empty.  [skip] counts
    the characters of a matched separator still to pass, [cur] is the
    piece being collected. *)
Fixpoint splitGo (sep : string) (skip : nat) (cur s : string) : list string :=
  match s with
  | EmptyString => [cur]
  | String c s' =>
      match skip with
      | S n => splitGo sep n cur s'
      | O =>
          if startsWith sep s
          then cur :: splitGo sep (String.length sep - 1) EmptyString s'
          else splitGo sep 0 (cur +:+ String c EmptyString) s'
      end
  end.

Definition split (sep s : string) : list string := splitGo sep 0 EmptyString s.

(** [parts.join(sep)] *)
Definition join (sep : string) (parts : list string) : string :=
  String.concat sep parts.

(** [switch (x) { case k: return v; ... }]: the first case equal to [x]. *)
Fixpoint switch (x : string) (cases : list (string * string)) : option string :=
  match cases with
  | [] => None
  | (k, v) :: rest => if String.eqb x k then Some v else switch x rest
  end.

Definition isDigit (a : ascii) : bool :=
  ((48 <=? code a) && (code a <=? 57))%N.
Definition isUpper (a : ascii) : bool :=
  ((65 <=? code a) && (code a <=? 90))%N.
Definition isLower (a : ascii) : bool :=
  ((97 <=? code a) && (code a <=? 122))%N.

Fixpoint allDigits (s : string) : bool :=
  match s with
  | EmptyString => true
  | String a r => isDigit a && allDigits r
  end.

(** [/^F\d+$/] *)
Definition isFunctionKey (s : string) : bool :=
  match s with
  | String "F" (String d r) => isDigit d && allDigits r
  | _ => false
  end.

(** [c.toUpperCase()] on one ASCII character. *)
Definition toUpperCase (a : ascii) : ascii :=
  if isLower a then ascii_of_N (code a - 32) else a.

(** ** [formatHotkeyForDisplay] *)

Definition formatModifiers : list (string * string) :=
  [("Ctrl", "Ctrl"); ("Alt", "Alt"); ("Shift", "Shift");
   ("Super", "Win"); ("Meta", "Cmd")].

Definition formatNumPad : list (string * string) :=
  [("0", "Numpad 0"); ("1", "Numpad 1"); ("2", "Numpad 2");
   ("3", "Numpad 3"); ("4", "Numpad 4"); ("5", "Numpad 5");
   ("6", "Numpad 6"); ("7", "Numpad 7"); ("8", "Numpad 8");
   ("9", "Numpad 9"); ("Decimal", "Numpad ,"); ("Enter", "Numpad Enter");
   ("Add", "Numpad +"); ("Subtract", "Numpad -");
   ("Multiply", "Numpad *"); ("Divide", "Numpad /")].

Definition formatArrows : list (string * string) :=
  [("ArrowUp", "↑"); ("ArrowDown", "↓");
   ("ArrowLeft", "←"); ("ArrowRight", "→")].

Definition formatSpecial : list (string * string) :=
  [("Space", "Space"); ("Enter", "Enter"); ("Tab", "Tab");
   ("Escape", "Esc"); ("Backspace", "Backspace"); ("Delete", "Delete");
   ("Home", "Home"); ("End", "End"); ("PageUp", "Page Up");
   ("PageDown", "Page Down"); ("Insert", "Insert")].

(** The callback of [.map] in [formatHotkeyForDisplay]. *)
Definition formatPart (part : string) : string :=
  let trimmed := trim part in
  match switch trimmed formatModifiers with
  | Some r => r
  | None =>
      if startsWith "NumPad" trimmed then
        let number := replace "NumPad" EmptyString trimmed in
        match switch number formatNumPad with
        | Some r => r
        | None => "Numpad " +:+ number
        end
      else if isFunctionKey trimmed then trimmed
      else
        match switch trimmed formatArrows with
        | Some r => r
        | None =>
            match switch trimmed formatSpecial with
            | Some r => r
            | None =>
                match trimmed with
                | String c EmptyString =>
                    if isUpper c || isLower c
                    then String (toUpperCase c) EmptyString
                    else trimmed
                | _ => trimmed
                end
            end
        end
  end.

Definition formatHotkeyForDisplay (hotkey : string) : string :=
  join " + " (map formatPart (split "+" hotkey)).

(** ** [parseDisplayHotkey] *)

Definition parseModifiers : list (string * string) :=
  [("Win", "Super"); ("Cmd", "Meta")].

Definition parseNumPad : list (string * string) :=
  [("0", "NumPad0"); ("1", "NumPad1"); ("2", "NumPad2");
   ("3", "NumPad3"); ("4", "NumPad4"); ("5", "NumPad5");
   ("6", "NumPad6"); ("7", "NumPad7"); ("8", "NumPad8");
   ("9", "NumPad9"); (",", "NumPadDecimal"); ("Enter", "NumPadEnter");
   ("+", "NumPadAdd"); ("-", "NumPadSubtract");
   ("*", "NumPadMultiply"); ("/", "NumPadDivide")].

Definition parseArrows : list (string * string) :=
  [("↑", "ArrowUp"); ("↓", "ArrowDown");
   ("←", "ArrowLeft"); ("→", "ArrowRight")].

Definition parseSpecial : list (string * string) :=
  [("Space", "Space"); ("Esc", "Escape"); ("Backspace", "Backspace");
   ("Delete", "Delete"); ("Home", "Home"); ("End", "End");
   ("Page Up", "PageUp"); ("Page Down", "PageDown"); ("Insert", "Insert")].

(** The callback of [.map] in [parseDisplayHotkey]. *)
Definition parsePart (part : string) : string :=
  let trimmed := trim part in
  match switch trimmed parseModifiers with
  | Some r => r
  | None =>
      if startsWith "Numpad " trimmed then
        let suffix := replace "Numpad " EmptyString trimmed in
        match switch suffix parseNumPad with
        | Some r => r
        | None => "NumPad" +:+ suffix
        end
      else
        match switch trimmed parseArrows with
        | Some r => r
        | None =>
            match switch trimmed parseSpecial with
            | Some r => r
            | None => trimmed
            end
        end
  end.

Definition parseDisplayHotkey (displayHotkey : string) : string :=
  join "+" (map parsePart (split " + " displayHotkey)).

(** ** Canonical technical key names *)

Definition modifierKeys : list string :=
  ["Ctrl"; "Alt"; "Shift"; "Super"; "Meta"].
Definition numPadKeys : list string :=
  ["NumPad0"; "NumPad1"; "NumPad2"; "NumPad3"; "NumPad4"; "NumPad5";
   "NumPad6"; "NumPad7"; "NumPad8"; "NumPad9"; "NumPadDecimal";
   "NumPadEnter"; "NumPadAdd"; "NumPadSubtract"; "NumPadMultiply";
   "NumPadDivide"].
Definition arrowKeys : list string :=
  ["ArrowUp"; "ArrowDown"; "ArrowLeft"; "ArrowRight"].
Definition specialKeys : list string :=
  ["Space"; "Enter"; "Tab"; "Escape"; "Backspace"; "Delete"; "Home";
   "End"; "PageUp"; "PageDown"; "Insert"].

Definition namedKeys : list string :=
  modifierKeys ++ numPadKeys ++ arrowKeys ++ specialKeys.

Definition isNamedKey (k : string) : bool := existsb (String.eqb k) namedKeys.

Definition isDigitOrUpperKey (k : string) : bool :=
  match k with
  | String c EmptyString => isDigit c || isUpper c
  | _ => false
  end.

(** A canonical technical key name: a modifier, a NumPad key, a
    function key, an arrow key, a listed special key, a digit, or one
    uppercase letter. *)
Definition canonicalKey (k : string) : bool :=
  isNamedKey k || isFunctionKey k || isDigitOrUpperKey k.

(** The ["+"]-separated parts of the hotkey are canonical. *)
Definition canonicalHotkey (h : string) : bool :=
  forallb canonicalKey (split "+" h).

(** The string has no ["+"] in it. *)
Fixpoint noPlus (s : string) : bool :=
  match s with
  | EmptyString => true
  | String c r => negb (Ascii.eqb c "+") && noPlus r
  end.

(** [NumPadAdd] does not occur before the last part. *)
Definition numPadAddOnlyLast (h : string) : bool :=
  forallb (fun k => negb (String.eqb k "NumPadAdd"))
          (removelast (split "+" h)).

End HotkeyDisplay.

(* ===================================================================== *)
(** * Sample inputs *)
(* ===================================================================== *)

Module Samples.

Import Dashboard.

Definition airhorn : Sound :=
  {| sound_id := "a"; sound_name := "Airhorn"; file_path := "C:/sounds/airhorn.mp3";
     category_id := "memes"; icon := None; sound_volume := None;
     is_favorite := false; trim_start_ms := None; trim_end_ms := Some 1500%Q |}.

(** A second button for the same file. *)
Definition airhornCopy : Sound :=
  {| sound_id := "b"; sound_name := "Airhorn"; file_path := "C:/sounds/airhorn.mp3";
     category_id := "memes"; icon := None; sound_volume := None;
     is_favorite := false; trim_start_ms := None; trim_end_ms := Some 1500%Q |}.

(** The backend accepts every command; [play_dual_output] returns [pid]. *)
Definition accepting (pid : string) (r : Request) : Response :=
  match r with
  | Invoke (play_dual_output _) => Resolved pid
  | _ => Resolved EmptyString
  end.


(** The backend rejects [stop_playback] and accepts the rest. *)
Definition rejectingStop (pid : string) (r : Request) : Response :=
  match r with
  | Invoke (stop_playback _) => Rejected "Playback not found"
  | Invoke (play_dual_output _) => Resolved pid
  | _ => Resolved EmptyString
  end.

Definition mounted : State := initial "mon" "cast" [airhorn; airhornCopy].

(** The airhorn was started once and plays as [p1]. *)
Definition airhornPlaying : State :=
  after [OpPlaySound airhorn (accepting "p1")] mounted.

End Samples.

(* ===================================================================== *)
(** * String methods used by the components *)
(* ===================================================================== *)

Module JsString.

(** [c.toLowerCase()] on one ASCII character, and on a string as far
    as its ASCII letters go (the extension test below looks at ASCII
    letters only). *)
Definition toLowerCase (a : ascii) : ascii :=
  if HotkeyDisplay.isUpper a then ascii_of_N (HotkeyDisplay.code a + 32) else a.

Fixpoint lower (s : string) : string :=
  match s with
  | EmptyString => EmptyString
  | String a r => String (toLowerCase a) (lower r)
  end.

(** [s.endsWith(suffix)] *)
Fixpoint endsWith (suffix s : string) : bool :=
  String.eqb s suffix
  || match s with
     | EmptyString => false
     | String _ r => endsWith suffix r
     end.

(** [s.includes(needle)] *)
Fixpoint includes (needle s : string) : bool :=
  HotkeyDisplay.startsWith needle s
  || match s with
     | EmptyString => false
     | String _ r => includes needle r
     end.

End JsString.

(* ===================================================================== *)
(** * Dashboard: effects, derived lists and the import dialog *)
(* ===================================================================== *)

(** [Array.prototype.sort(compare)], [le a b] standing for
    [compare(a, b) <= 0].  For a consistent comparator the sort is
    specified to give the stably sorted order, which insertion from
    the right computes. *)
Fixpoint insertSorted {A : Type} (le : A -> A -> bool) (x : A) (l : list A) : list A :=
  match l with
  | [] => [x]
  | y :: l' => if le x y then x :: l else y :: insertSorted le x l'
  end.

Definition sortWith {A : Type} (le : A -> A -> bool) (l : list A) : list A :=
  fold_right (insertSorted le) [] l.

Module DashboardEffects.

Import Dashboard.

(** [AudioDevice] and [Category] of [types.ts]. *)
Record AudioDevice := {
  device_id : string;
  device_name : string;
  is_default : bool;
}.

Record Category := {
  cat_id : string;
  cat_name : string;
  cat_icon : option string;
  sort_order : number;
}.

(** Every pending 300 ms timer fires, oldest first. *)
Definition fireAllTimers (st : State) : State :=
  Nat.iter (length (timers st)) fireTimer st.





(** [(a, b) => a.sort_order - b.sort_order] *)
Definition bySortOrder (a b : Category) : bool :=
  Qle_bool (sort_order a - sort_order b) 0.

(** Body of the effect "Set initial category when categories load":
    the new value of [selectedCategoryId]. *)
Definition initialCategory (categories : list Category)
    (selectedCategoryId : string) : string :=
  if Nat.ltb 0 (length categories) && negb (truthy selectedCategoryId) then
    match sortWith bySortOrder categories with
    | c :: _ => if truthy (cat_id c) then cat_id c else EmptyString
    | [] => EmptyString
    end
  else selectedCategoryId.

Section Lists.

(** [a.localeCompare(b)]: the collation of the host is not part of the
    sources and is taken as given. *)
Variable localeCompare : string -> string -> Z.

(** [(a, b) => a.name.localeCompare(b.name)] *)
Definition byName (a b : Sound) : bool :=
  Z.leb (localeCompare (sound_name a) (sound_name b)) 0.

Definition categorySounds (sounds : list Sound) (selectedCategoryId : string)
    : list Sound :=
  List.filter (fun s => String.eqb (category_id s) selectedCategoryId) sounds.

Definition favoriteSounds (sounds : list Sound) (selectedCategoryId : string)
    : list Sound :=
  sortWith byName
    (List.filter (fun s => is_favorite s) (categorySounds sounds selectedCategoryId)).

Definition regularSounds (sounds : list Sound) (selectedCategoryId : string)
    : list Sound :=
  sortWith byName
    (List.filter (fun s => negb (is_favorite s))
                 (categorySounds sounds selectedCategoryId)).

Definition filteredSounds (sounds : list Sound) (selectedCategoryId : string)
    (showFavoritesOnly : bool) : list Sound :=
  if showFavoritesOnly
  then favoriteSounds sounds selectedCategoryId
  else favoriteSounds sounds selectedCategoryId
         ++ regularSounds sounds selectedCategoryId.

End Lists.

End DashboardEffects.

(* ===================================================================== *)
(** * Dashboard: importing files *)
(* ===================================================================== *)

Module ImportDialog.

Import Dashboard JsString.

Definition audioExtensions : list string :=
  [".mp3"; ".wav"; ".ogg"; ".m4a"; ".flac"].

(** [/\.(mp3|wav|ogg|m4a|flac)$/i.test(path)] *)
Definition isAudioFile (path : string) : bool :=
  existsb (fun e => endsWith e (lower path)) audioExtensions.

(** A count inside a template literal. *)
Definition showNat (n : nat) : string := NilEmpty.string_of_uint (Nat.to_uint n).

(** The callback that [onSave] hands to [setTimeout(..., 100)], with
    the values it closes over. *)
Record Reopen := {
  remainingFiles : list string;
  currentFileNum : nat;
  totalFiles : nat;
}.

(** The state of the component that importing touches; [page] holds
    the toast. *)
Record State := {
  page : Dashboard.State;
  isModalOpen : bool;
  editingSound : option Sound;
  droppedFilePath : option string;
  fileQueue : list string;
  reopening : list Reopen;
}.

Definition toast (message : string) (st : State) : State :=
  {| page := showToast message (page st);
     isModalOpen := isModalOpen st; editingSound := editingSound st;
     droppedFilePath := droppedFilePath st; fileQueue := fileQueue st;
     reopening := reopening st |}.

(** The branch shared by the drop listener and [handleAddSound] once
    at least one audio file is at hand. *)
Definition openModalFor (audioFiles : list string) (st : State) : State :=
  match audioFiles with
  | [] => st
  | [file] =>
      {| page := page st;
         isModalOpen := true; editingSound := None;
         droppedFilePath := Some file; fileQueue := fileQueue st;
         reopening := reopening st |}
  | file :: _ =>
      toast ("Adding " +:+ showNat (length audioFiles) +:+ " sounds (1/"
             +:+ showNat (length audioFiles) +:+ ")")
        {| page := page st;
           isModalOpen := true; editingSound := None;
           droppedFilePath := Some file; fileQueue := audioFiles;
           reopening := reopening st |}
  end.

(** Listener of [tauri://drag-drop], on the paths of the payload. *)
Definition onFileDrop (paths : list string) (st : State) : State :=
  match List.filter isAudioFile paths with
  | [] => toast "Please drop an audio file (MP3, WAV, OGG, M4A)" st
  | audioFiles => openModalFor audioFiles st
  end.

(** What the file dialog of [handleAddSound] gives back. *)
Inductive Selected :=
| Cancelled                        (* null *)
| OneFile (path : string)
| SeveralFiles (paths : list string)
| DialogFailed (error : string).

Definition handleAddSound (selected : Selected) (st : State) : State :=
  match selected with
  | DialogFailed error => toast ("Error opening file dialog: " +:+ error) st
  | Cancelled => st
  | OneFile path =>
      if truthy path then
        match List.filter isAudioFile [path] with
        | [] => toast "No audio files selected" st
        | audioFiles => openModalFor audioFiles st
        end
      else st
  | SeveralFiles paths =>
      match List.filter isAudioFile paths with
      | [] => toast "No audio files selected" st
      | audioFiles => openModalFor audioFiles st
      end
  end.

(** [onSave] of the modal, after [refreshSounds()] has resolved. *)
Definition onSave (st : State) : State :=
  if Nat.ltb 1 (length (fileQueue st)) then
    let remaining := tl (fileQueue st) in
    let total := length (fileQueue st) in
    let current := total - length remaining + 1 in
    {| page := page st;
       isModalOpen := false; editingSound := editingSound st;
       droppedFilePath := droppedFilePath st; fileQueue := fileQueue st;
       reopening := reopening st
                    ++ [{| remainingFiles := remaining;
                           currentFileNum := current;
                           totalFiles := total |}] |}
  else
    let totalAdded := length (fileQueue st) in
    let st1 :=
      {| page := page st;
         isModalOpen := isModalOpen st; editingSound := editingSound st;
         droppedFilePath := None; fileQueue := [];
         reopening := reopening st |} in
    if Nat.ltb 0 totalAdded
    then toast ("Successfully added " +:+ showNat totalAdded +:+ " sounds!") st1
    else st1.

(** The oldest 100 ms timer fires: the modal reopens on the next file. *)
Definition fireReopen (st : State) : State :=
  match reopening st with
  | [] => st
  | r :: rest =>
      toast ("Adding sounds (" +:+ showNat (currentFileNum r) +:+ "/"
             +:+ showNat (totalFiles r) +:+ ")")
        {| page := page st;
           isModalOpen := true; editingSound := None;
           droppedFilePath := hd_error (remainingFiles r);
           fileQueue := remainingFiles r;
           reopening := rest |}
  end.

(** [onClose] of the modal. *)
Definition onClose (st : State) : State :=
  {| page := page st;
     isModalOpen := false; editingSound := None;
     droppedFilePath := None; fileQueue := [];
     reopening := reopening st |}.

(** One file of the queue is saved and the modal comes back. *)
Definition saveNext (st : State) : State := fireReopen (onSave st).

(** The modal stands open on the [k]-th file of [files], the files
    from there on being queued. *)
Definition importingAt (files : list string) (k : nat) (st : State) : Prop :=
  isModalOpen st = true /\ editingSound st = None /\
  droppedFilePath st = nth_error files k /\
  fileQueue st = skipn k files /\ reopening st = [].

End ImportDialog.

(* ===================================================================== *)
(** * Settings page and VB-Cable installation *)
(* ===================================================================== *)

Module Async.

Import Settings.

(** [VbCableStatus]: the [status] tag and, when present,
    [info.output_device]. *)
Record VbCableStatus := {
  vb_status : string;
  vb_output_device : option string;
}.

(** [SavedDefaults] is opaque to the frontend: it is held as received
    and handed back. *)
Definition SavedDefaults : Type := string.

(** What the settings components call and wait for, with the type of
    the value it resolves to: backend commands through [invoke], the
    functions of the audio and settings contexts, and the callback
    prop of [VbCableSettings]. *)
Inductive Command : Type -> Type :=
| check_vb_cable_status : Command VbCableStatus
| save_all_default_devices : Command SavedDefaults
| start_vb_cable_install : Command unit
| restore_all_default_devices (saved : SavedDefaults) : Command unit
| list_audio_devices : Command (list DashboardEffects.AudioDevice)
| cleanup_vb_cable_install : Command unit
| open_vb_audio_website : Command unit
| enable_autostart : Command unit
| disable_autostart : Command unit
| refreshDevices : Command unit
| reloadSettings : Command unit
| saveSettings (settings : AppSettings) : Command unit
| onDeviceChange : Command unit.

(** A call returns (a promise resolves) or throws (it rejects), the
    error being kept as the string it is rendered to. *)
Inductive Result (A : Type) : Type :=
| Ok (value : A)
| Err (error : string).
Arguments Ok {A} value.
Arguments Err {A} error.

(** An [async] function body over a store [S]: it runs to its next
    call or [setTimeout] promise and goes on from the outcome. *)
#[local] Unset Elimination Schemes.
Inductive Async (S : Type) : Type :=
| Return
| Call {A : Type} (c : Command A) (k : Result A -> S -> S * Async S)
| Wait (ms : nat) (k : S -> S * Async S).
#[local] Set Elimination Schemes.
Arguments Return {S}.
Arguments Call {S A} c k.
Arguments Wait {S} ms k.

Inductive Event : Type :=
| Called {A : Type} (c : Command A)
| Waited (ms : nat).

Definition Oracle : Type := forall A : Type, Command A -> Result A.

(** Run to completion with every call answered by [oracle]; the result
    is the final store and what was called and waited for, in order. *)
Fixpoint run {S : Type} (oracle : Oracle) (t : Async S) (st : S) : S * list Event :=
  match t with
  | Return => (st, [])
  | Call c k =>
      match k (oracle _ c) st with
      | (st', t') =>
          let (final, trace) := run oracle t' st' in (final, Called c :: trace)
      end
  | Wait ms k =>
      match k st with
      | (st', t') =>
          let (final, trace) := run oracle t' st' in (final, Waited ms :: trace)
      end
  end.

Definition exec {S : Type} (oracle : Oracle) (body : S -> S * Async S) (st : S)
  : S * list Event :=
  let (st', t) := body st in run oracle t st'.

(** The name under which a command is invoked, or the function is
    known in its context. *)
Definition name {A : Type} (c : Command A) : string :=
  match c with
  | check_vb_cable_status => "check_vb_cable_status"
  | save_all_default_devices => "save_all_default_devices"
  | start_vb_cable_install => "start_vb_cable_install"
  | restore_all_default_devices _ => "restore_all_default_devices"
  | list_audio_devices => "list_audio_devices"
  | cleanup_vb_cable_install => "cleanup_vb_cable_install"
  | open_vb_audio_website => "open_vb_audio_website"
  | enable_autostart => "enable_autostart"
  | disable_autostart => "disable_autostart"
  | refreshDevices => "refreshDevices"
  | reloadSettings => "reloadSettings"
  | saveSettings _ => "saveSettings"
  | onDeviceChange => "onDeviceChange"
  end.

(** The names called in a trace, in order. *)
Definition calls (trace : list Event) : list string :=
  flat_map (fun ev => match ev with Called c => [name c] | Waited _ => [] end) trace.

(** The defaults handed to [restore_all_default_devices], and the
    settings handed to [saveSettings], in a trace. *)
Definition restored (trace : list Event) : list SavedDefaults :=
  flat_map (fun ev => match ev with
                      | Called (restore_all_default_devices saved) => [saved]
                      | _ => []
                      end) trace.

Definition saved (trace : list Event) : list AppSettings :=
  flat_map (fun ev => match ev with
                      | Called (saveSettings settings) => [settings]
                      | _ => []
                      end) trace.

End Async.

Module VbCable.

Import Settings Async JsString.

Record State := {
  status : option VbCableStatus;
  isInstalling : bool;
  installStep : string;
  error : option string;
}.

(** Initial values of the [useState] hooks. *)
Definition initial : State :=
  {| status := None; isInstalling := false;
     installStep := EmptyString; error := None |}.

Definition setStatus (v : option VbCableStatus) (st : State) : State :=
  {| status := v; isInstalling := isInstalling st;
     installStep := installStep st; error := error st |}.

Definition setIsInstalling (v : bool) (st : State) : State :=
  {| status := status st; isInstalling := v;
     installStep := installStep st; error := error st |}.

Definition setInstallStep (v : string) (st : State) : State :=
  {| status := status st; isInstalling := isInstalling st;
     installStep := v; error := error st |}.

Definition setError (v : option string) (st : State) : State :=
  {| status := status st; isInstalling := isInstalling st;
     installStep := installStep st; error := v |}.

Definition checkStatus (st : State) : State * Async State :=
  (st, Call check_vb_cable_status (fun r st =>
     match r with
     | Ok result => (setError None (setStatus (Some result) st), Return)
     | Err e => (setError (Some ("Status-Check fehlgeschlagen: " +:+ e)) st, Return)
     end)).

(** [devices.find((d) => d.name.toLowerCase().includes("cable input"))];
    the needle has ASCII letters only. *)
Definition findVbCable (devices : list DashboardEffects.AudioDevice)
  : option DashboardEffects.AudioDevice :=
  List.find (fun d => includes "cable input" (lower (DashboardEffects.device_name d)))
            devices.

Section HandleInstall.

(** What the closure of [handleInstall] holds: the settings of the
    context at the time of rendering, and whether the parent passed
    [onDeviceChange]. *)
Variable settings : option AppSettings.
Variable hasOnDeviceChange : bool.

(** The [catch] block followed by [finally]. *)
Definition installFailed (e : string) (st : State) : State * Async State :=
  (setIsInstalling false
     (setInstallStep EmptyString
        (setError (Some ("Installation fehlgeschlagen: " +:+ e)) st)),
   Return).

(** Step 8, then [finally]. *)
Definition cleanup (st : State) : State * Async State :=
  (setInstallStep "Räume auf..." st,
   Call cleanup_vb_cable_install (fun r st =>
     match r with
     | Ok _ => (setIsInstalling false (setInstallStep EmptyString st), Return)
     | Err e => installFailed e st
     end)).

(** Steps 6 and 7. *)
Definition checkAndSelect (st : State) : State * Async State :=
  (st,
   Call check_vb_cable_status (fun r st =>
     match r with
     | Err e => installFailed e st
     | Ok newStatus =>
         let st := setStatus (Some newStatus) st in
         if String.eqb (vb_status newStatus) "installed" then
           (setInstallStep "Konfiguriere VB-Cable als Broadcast-Gerät..." st,
            Call list_audio_devices (fun r st =>
              match r with
              | Err e => installFailed e st
              | Ok devices =>
                  match findVbCable devices, settings with
                  | Some vbCableDevice, Some current =>
                      (st,
                       Call (saveSettings
                               (updateSetting k_broadcast_device_id
                                  (Some (DashboardEffects.device_id vbCableDevice))
                                  current))
                            (fun r st =>
                               match r with
                               | Err e => installFailed e st
                               | Ok _ => cleanup st
                               end))
                  | _, _ => cleanup st
                  end
              end))
         else cleanup st
     end)).

(** Step 5. *)
Definition refresh (st : State) : State * Async State :=
  (setInstallStep "Aktualisiere Geräteliste..." st,
   Call refreshDevices (fun r st =>
     match r with
     | Err e => installFailed e st
     | Ok _ =>
         if hasOnDeviceChange then
           (st, Call onDeviceChange (fun r st =>
                  match r with
                  | Err e => installFailed e st
                  | Ok _ => checkAndSelect st
                  end))
         else checkAndSelect st
     end)).

Definition handleInstall (st : State) : State * Async State :=
  (setInstallStep "Speichere alle Standard-Geräte..."
     (setError None (setIsInstalling true st)),
   Call save_all_default_devices (fun r st =>
     match r with
     | Err e => installFailed e st
     | Ok savedDefaults =>
         (setInstallStep "Installiere VB-Cable..." st,
          Call start_vb_cable_install (fun r st =>
            match r with
            | Err e => installFailed e st
            | Ok _ =>
                (setInstallStep "Warte auf Geräte-Registrierung..." st,
                 Wait 3000 (fun st =>
                   (setInstallStep "Stelle alle Standard-Geräte wieder her..." st,
                    Call (restore_all_default_devices savedDefaults)
                         (fun _ st => refresh st))))
            end))
     end)).

End HandleInstall.

Definition handleOpenWebsite (st : State) : State * Async State :=
  (st, Call open_vb_audio_website (fun r st =>
     match r with
     | Ok _ => (st, Return)
     | Err e => (setError (Some ("Konnte Website nicht öffnen: " +:+ e)) st, Return)
     end)).

End VbCable.

Module SettingsPage.

Import Settings Async JsString.

(** The state of the page; [statusTimers] holds the delays of the
    pending [setTimeout] callbacks that blank the status. *)
Record State := {
  settings : AppSettings;
  isRefreshing : bool;
  isSaving : bool;
  status : string;
  statusTimers : list nat;
}.

Definition setSettings (v : AppSettings) (st : State) : State :=
  {| settings := v; isRefreshing := isRefreshing st; isSaving := isSaving st;
     status := status st; statusTimers := statusTimers st |}.



Definition setStatus (v : string) (st : State) : State :=
  {| settings := settings st; isRefreshing := isRefreshing st; isSaving := isSaving st;
     status := v; statusTimers := statusTimers st |}.


Definition initial : State :=
  {| settings := initialSettings; isRefreshing := false; isSaving := false;
     status := EmptyString; statusTimers := [] |}.









End SettingsPage.

(** Backends to run the settings components against. *)
Module Backends.

Import Settings Async.

Definition cableInput : DashboardEffects.AudioDevice :=
  {| DashboardEffects.device_id := "out-7";
     DashboardEffects.device_name := "CABLE Input (VB-Audio Virtual Cable)";
     DashboardEffects.is_default := false |}.

Definition speakers : DashboardEffects.AudioDevice :=
  {| DashboardEffects.device_id := "out-1";
     DashboardEffects.device_name := "Speakers";
     DashboardEffects.is_default := true |}.

(** Every call succeeds and the cable is found installed. *)
Definition allOk : Oracle := fun A c =>
  match c in Command A return Result A with
  | check_vb_cable_status =>
      Ok {| vb_status := "installed"; vb_output_device := Some "CABLE Input" |}
  | save_all_default_devices => Ok "defaults"
  | list_audio_devices => Ok [speakers; cableInput]
  | _ => Ok tt
  end.

(** As [allOk], but the defaults cannot be restored. *)
Definition restoreFails : Oracle := fun A c =>
  match c in Command A return Result A with
  | restore_all_default_devices _ => Err "access denied"
  | c => allOk _ c
  end.

(** As [allOk], but the installer fails. *)
Definition installFails : Oracle := fun A c =>
  match c in Command A return Result A with
  | start_vb_cable_install => Err "driver rejected"
  | c => allOk _ c
  end.

End Backends.

(* ===================================================================== *)
(** * Properties of the insertion-ordered map *)
(* ===================================================================== *)

Section JsMapFacts.

Implicit Types (m : JsMap.t) (k v : string).

Lemma JsMap_keys_delete_in k k' m :
  In k' (JsMap.keys (JsMap.delete k m)) -> In k' (JsMap.keys m) /\ k' <> k.
Proof.
  induction m as [|[a b] m IH]; simpl; [tauto|].
  destruct (String.eqb_spec a k) as [->|Hne]; simpl.
  - intros H. apply IH in H. tauto.
  - intros [<-|H]; [split; [now left|assumption]|].
    apply IH in H. tauto.
Qed.

Lemma JsMap_wf_delete k m : JsMap.wf m -> JsMap.wf (JsMap.delete k m).
Proof.
  unfold JsMap.wf. induction m as [|[a b] m IH]; simpl; [trivial|].
  intros H. apply List.NoDup_cons_iff in H as [Hnotin Hnd].
  destruct (String.eqb a k); simpl; [auto|].
  apply List.NoDup_cons_iff. split; [|auto].
  intros Hin. apply JsMap_keys_delete_in in Hin. tauto.
Qed.

Lemma JsMap_keys_set_in k v k' m :
  In k' (JsMap.keys (JsMap.set k v m)) -> In k' (JsMap.keys m) \/ k' = k.
Proof.
  induction m as [|[a b] m IH]; simpl.
  - intros [<-|[]]. now right.
  - destruct (String.eqb_spec a k) as [->|Hne]; simpl; [tauto|].
    intros [<-|H]; [tauto|]. apply IH in H. tauto.
Qed.

Lemma JsMap_wf_set k v m : JsMap.wf m -> JsMap.wf (JsMap.set k v m).
Proof.
  unfold JsMap.wf. induction m as [|[a b] m IH]; simpl.
  - intros _. apply List.NoDup_cons_iff. split; [simpl; tauto|apply List.NoDup_nil].
  - intros H. apply List.NoDup_cons_iff in H as [Hnotin Hnd].
    destruct (String.eqb_spec a k) as [->|Hne]; simpl.
    + apply List.NoDup_cons_iff. tauto.
    + apply List.NoDup_cons_iff. split; [|auto].
      intros Hin.
      apply JsMap_keys_set_in in Hin as [Hin| ->]; [|congruence].
      now apply Hnotin.
Qed.

Lemma JsMap_get_delete_eq k m : JsMap.get k (JsMap.delete k m) = None.
Proof.
  induction m as [|[a b] m IH]; simpl; [reflexivity|].
  destruct (String.eqb a k) eqn:E; simpl; [assumption|].
  now rewrite E.
Qed.

Lemma JsMap_get_delete_ne k k' m :
  k' <> k -> JsMap.get k' (JsMap.delete k m) = JsMap.get k' m.
Proof.
  intros Hne. induction m as [|[a b] m IH]; simpl; [reflexivity|].
  destruct (String.eqb_spec a k) as [->|Hak]; simpl.
  - destruct (String.eqb_spec k k'); [congruence|assumption].
  - destruct (String.eqb a k'); [reflexivity|assumption].
Qed.

Lemma JsMap_get_set_eq k v m : JsMap.get k (JsMap.set k v m) = Some v.
Proof.
  induction m as [|[a b] m IH]; simpl.
  - now rewrite String.eqb_refl.
  - destruct (String.eqb a k) eqn:E; simpl; now rewrite E.
Qed.

Lemma JsMap_get_set_ne k v k' m :
  k' <> k -> JsMap.get k' (JsMap.set k v m) = JsMap.get k' m.
Proof.
  intros Hne. induction m as [|[a b] m IH]; simpl.
  - destruct (String.eqb_spec k k'); [congruence|reflexivity].
  - destruct (String.eqb_spec a k) as [->|Hak]; simpl.
    + destruct (String.eqb_spec k k'); [congruence|reflexivity].
    + destruct (String.eqb a k'); [reflexivity|assumption].
Qed.

Lemma JsMap_delete_absent k m : JsMap.get k m = None -> JsMap.delete k m = m.
Proof.
  induction m as [|[a b] m IH]; simpl; [reflexivity|].
  destruct (String.eqb a k); [discriminate|].
  intros H. now rewrite IH.
Qed.

Lemma JsMap_has_delete k k' m :
  k' <> k -> JsMap.has k' m = true -> JsMap.has k' (JsMap.delete k m) = true.
Proof.
  unfold JsMap.has. intros Hne. now rewrite JsMap_get_delete_ne.
Qed.

Lemma JsMap_has_set k v k' m :
  k' = k \/ JsMap.has k' m = true -> JsMap.has k' (JsMap.set k v m) = true.
Proof.
  unfold JsMap.has. destruct (String.eqb_spec k' k) as [->|Hne].
  - intros _. now rewrite JsMap_get_set_eq.
  - intros [?|H]; [congruence|]. now rewrite JsMap_get_set_ne.
Qed.

Lemma JsMap_filter_absent k m :
  ~ In k (JsMap.keys m) ->
  List.filter (fun e : string * string => String.eqb (fst e) k) m = [].
Proof.
  induction m as [|[c d] m IH]; simpl; [reflexivity|].
  intros Hnotin. destruct (String.eqb_spec c k) as [->|Hne]; [tauto|].
  apply IH. tauto.
Qed.

(** With one entry per key, a key holds at most one value. *)
Lemma JsMap_wf_filter_key k m :
  JsMap.wf m ->
  length (List.filter (fun e : string * string => String.eqb (fst e) k) m) <= 1.
Proof.
  unfold JsMap.wf. induction m as [|[a b] m IH]; simpl; [lia|].
  intros H. apply List.NoDup_cons_iff in H as [Hnotin Hnd].
  destruct (String.eqb_spec a k) as [->|Hne]; [|auto].
  rewrite JsMap_filter_absent by assumption. simpl. lia.
Qed.

End JsMapFacts.

(* ===================================================================== *)
(** * Dashboard: the tracking invariant *)
(* ===================================================================== *)

Section DashboardTracking.

Import Dashboard.

Implicit Types (st : State) (sound : Sound) (sid pid : string)
               (oracle : Request -> Response).

Lemma tracked_relax sid st : tracked st -> trackedBut sid st.
Proof. intros [Hwf Hin]. split; [assumption|]. intros s Hs. right. auto. Qed.

Lemma trackedBut_untrack sid st : trackedBut sid st -> tracked (untrack sid st).
Proof.
  intros [Hwf Hin]. split; simpl.
  - now apply JsMap_wf_delete.
  - intros s Hs. apply elem_of_difference in Hs as [Hs Hne].
    rewrite elem_of_singleton in Hne.
    destruct (Hin s Hs) as [->|Hhas]; [congruence|].
    now apply JsMap_has_delete.
Qed.

Lemma trackedBut_add sid st :
  trackedBut sid st ->
  trackedBut sid (setPlayingSoundIds (fun prev => prev ∪ {[sid]}) st).
Proof.
  intros [Hwf Hin]. split; simpl; [assumption|].
  intros s Hs. apply elem_of_union in Hs as [Hs|Hs]; [auto|].
  left. now apply elem_of_singleton in Hs.
Qed.

Lemma trackedBut_set sid pid st :
  trackedBut sid st ->
  tracked (updPlayingSoundsRef (JsMap.set sid pid) st).
Proof.
  intros [Hwf Hin]. split; simpl.
  - now apply JsMap_wf_set.
  - intros s Hs. apply JsMap_has_set. auto.
Qed.

(** The [// Start playback] block run to its end. *)
Lemma startPlayback_exec oracle d1 d2 vol sound st :
  exec oracle (startPlayback d1 d2 vol sound) st =
  let st1 := setPlayingSoundIds (fun prev => prev ∪ {[sound_id sound]}) st in
  let req := Invoke (play_dual_output (playArgs d1 d2 vol sound)) in
  (match oracle req with
   | Resolved playbackId =>
       putActiveWaveform (Some (waveformOf sound))
         (updPlayingSoundsRef (JsMap.set (sound_id sound) playbackId) st1)
   | Rejected error =>
       untrack (sound_id sound) (showToast ("Error: " +:+ error) st1)
   end, [(st1, req)]).
Proof.
  unfold exec, startPlayback. simpl.
  destruct (oracle _); reflexivity.
Qed.

Lemma tracked_startPlayback oracle d1 d2 vol sound st :
  trackedBut (sound_id sound) st ->
  tracked (fst (exec oracle (startPlayback d1 d2 vol sound) st)).
Proof.
  intros H. rewrite startPlayback_exec. simpl.
  apply (trackedBut_add (sound_id sound)) in H.
  destruct (oracle _); simpl.
  - exact (trackedBut_set (sound_id sound) v _ H).
  - exact (trackedBut_untrack (sound_id sound) _ H).
Qed.

(** [playSound] run to its end, by cases on the guard, on the ref and
    on the answer to the stop command. *)
Lemma playSound_exec oracle sound st :
  exec oracle (playSound sound) st =
  let start := startPlayback (device1 st) (device2 st) (volume st) sound in
  if negb (truthy (device1 st)) || negb (truthy (device2 st)) then
    (showToast "Please configure audio devices in Settings first" st, [])
  else
    match JsMap.get (sound_id sound) (playingSoundsRef st) with
    | Some pid =>
        if truthy pid then
          match oracle (Invoke (stop_playback pid)) with
          | Resolved _ =>
              let cleaned := untrack (sound_id sound) st in
              (fst (exec oracle start cleaned),
               (st, Invoke (stop_playback pid))
                 :: (cleaned, Sleep 100) :: snd (exec oracle start cleaned))
          | Rejected _ =>
              (fst (exec oracle start st),
               (st, Invoke (stop_playback pid)) :: snd (exec oracle start st))
          end
        else exec oracle start st
    | None => exec oracle start st
    end.
Proof.
  unfold exec at 1. unfold playSound.
  destruct (negb (truthy (device1 st)) || negb (truthy (device2 st)));
    [reflexivity|].
  destruct (JsMap.get (sound_id sound) (playingSoundsRef st)) as [pid|];
    [|reflexivity].
  destruct (truthy pid); [|reflexivity].
  cbn [run]. destruct (oracle (Invoke (stop_playback pid))).
  - cbn [run]. rewrite !startPlayback_exec. simpl.
    destruct (oracle _); reflexivity.
  - rewrite !startPlayback_exec. unfold startPlayback. simpl.
    destruct (oracle _); reflexivity.
Qed.

Lemma tracked_playSound oracle sound st :
  tracked st -> tracked (fst (exec oracle (playSound sound) st)).
Proof.
  intros H. rewrite playSound_exec. cbv zeta.
  destruct (negb (truthy (device1 st)) || negb (truthy (device2 st)));
    [exact H|].
  destruct (JsMap.get (sound_id sound) (playingSoundsRef st)) as [pid|].
  - destruct (truthy pid).
    + destruct (oracle (Invoke (stop_playback pid))); simpl.
      * apply tracked_startPlayback, tracked_relax, trackedBut_untrack.
        now apply tracked_relax.
      * now apply tracked_startPlayback, tracked_relax.
    + now apply tracked_startPlayback, tracked_relax.
  - now apply tracked_startPlayback, tracked_relax.
Qed.

Lemma tracked_stopAllAudio oracle st :
  tracked st -> tracked (fst (exec oracle stopAllAudio st)).
Proof.
  intros H. unfold exec, stopAllAudio. cbn [run].
  destruct (oracle (Invoke stop_all_audio)); simpl; [|exact H].
  split; simpl.
  - apply List.NoDup_nil.
  - intros sid Hs. now apply not_elem_of_empty in Hs.
Qed.

Lemma completeWaveform_tracking sid st :
  playingSoundsRef (completeWaveform sid st) = playingSoundsRef st /\
  playingSoundIds (completeWaveform sid st) = playingSoundIds st.
Proof.
  unfold completeWaveform.
  destruct (activeWaveform st) as [prev|]; [|tauto].
  destruct (String.eqb (soundId prev) sid); [|tauto].
  destruct (last _) as [next|]; [|simpl; tauto].
  destruct (findSound next (soundLibrary st)); simpl; tauto.
Qed.

Lemma tracked_onPlaybackComplete p st :
  tracked st -> tracked (onPlaybackComplete p st).
Proof.
  intros H. unfold onPlaybackComplete.
  destruct (findSoundId p _) as [sid|]; [|exact H].
  destruct (truthy sid); [|exact H].
  pose proof (trackedBut_untrack sid st (tracked_relax sid st H)) as Hu.
  destruct (completeWaveform_tracking sid (untrack sid st)) as [Hr Hs].
  unfold tracked. rewrite Hr, Hs. exact Hu.
Qed.

Lemma onPlaybackProgress_tracking ev st :
  playingSoundsRef (onPlaybackProgress ev st) = playingSoundsRef st /\
  playingSoundIds (onPlaybackProgress ev st) = playingSoundIds st.
Proof.
  unfold onPlaybackProgress.
  destruct (findSoundId _ _); [|tauto].
  destruct (activeWaveform st) as [prev|]; [|tauto].
  destruct (String.eqb (soundId prev) s); simpl; tauto.
Qed.

Lemma tracked_emit event payload st :
  tracked st -> tracked (emit event payload st).
Proof.
  intros H. unfold emit, listeners. cbn [fold_left fst snd].
  destruct (String.eqb "audio-decode-complete" event).
  all: destruct (String.eqb "audio-decode-error" event).
  all: destruct (String.eqb "playback-complete" event).
  all: destruct (String.eqb "playback-progress" event).
  all: destruct payload as [msg|ev]; try exact H.
  all: repeat first
    [ apply tracked_onPlaybackComplete
    | match goal with
      | |- tracked (onPlaybackProgress ?e ?x) =>
          let Hr := fresh in let Hs := fresh in
          destruct (onPlaybackProgress_tracking e x) as [Hr Hs];
          unfold tracked; rewrite Hr, Hs; fold (tracked x)
      | |- tracked (onDecodeError ?m ?x) =>
          change (JsMap.wf (playingSoundsRef x) /\
                  forall sid, sid ∈ playingSoundIds x ->
                              JsMap.has sid (playingSoundsRef x) = true);
          fold (tracked x)
      end ]; exact H.
Qed.

Lemma tracked_fireTimer st : tracked st -> tracked (fireTimer st).
Proof.
  intros H. unfold fireTimer.
  destruct (timers st) as [|[] rest]; exact H.
Qed.

(** Every operation keeps the invariant. *)
Lemma tracked_apply st op : tracked st -> tracked (apply st op).
Proof.
  intros H. destruct op; simpl.
  - now apply tracked_playSound.
  - now apply tracked_stopAllAudio.
  - now apply tracked_emit.
  - now apply tracked_fireTimer.
  - exact H.
Qed.

Lemma tracked_initial d1 d2 lib : tracked (initial d1 d2 lib).
Proof.
  split; simpl.
  - apply List.NoDup_nil.
  - intros sid Hs. now apply not_elem_of_empty in Hs.
Qed.

Lemma tracked_after ops st : tracked st -> tracked (after ops st).
Proof.
  unfold after. revert st.
  induction ops as [|op ops IH]; intros st H; simpl; [exact H|].
  apply IH. now apply tracked_apply.
Qed.

Lemma tracked_idsFor sid st : JsMap.wf (playingSoundsRef st) -> idsFor sid st <= 1.
Proof. intros H. unfold idsFor. now apply JsMap_wf_filter_key. Qed.

End DashboardTracking.

(* ===================================================================== *)
(** * Dashboard: the tracking invariant with handlers interleaved *)
(* ===================================================================== *)

Section DashboardInterleaved.

Import Dashboard.

Implicit Types (st : State) (sound : Sound) (sid : string)
               (Y E : gset string) (sys : Sys).



















End DashboardInterleaved.

(** ** C2 *)


(** While the play command of a sound waits for its answer, the sound
    is in the playing set and not yet in the ref. *)
Example playing_set_leads_the_ref :
  let sys := Dashboard.sysRun [Dashboard.CallPlaySound Samples.airhorn] Samples.mounted in
  length (Dashboard.pending sys) = 1 /\
  Dashboard.playingSoundIds (Dashboard.store sys) = {["a"]} /\
  Dashboard.playingSoundsRef (Dashboard.store sys) = [].
Proof. repeat split. Qed.

(** ** C3 *)


(** ** C1 *)

(** C1, as the code has it.  With both devices configured, when the
    ref holds a non-empty playback id for the sound, [playSound] issues
    the stop command for that id first.  If the stop command succeeds,
    the sound is removed from the ref and from the playing set, 100 ms
    are awaited, and only then the play command is issued, the ref
    holding no id for the sound at that moment.  If the stop command
    fails, the play command is issued next, without removal or wait.
    In both cases the ref holds at most one id for the sound at every
    request and at the end, and the id it holds at the end is the new
    one if the play command succeeded. *)
Theorem restart_stops_before_play
    (sound : Dashboard.Sound) (st : Dashboard.State)
    (oracle : Request -> Response) (pid : string) :
  truthy (Dashboard.device1 st) = true ->
  truthy (Dashboard.device2 st) = true ->
  JsMap.wf (Dashboard.playingSoundsRef st) ->
  JsMap.get (Dashboard.sound_id sound) (Dashboard.playingSoundsRef st) = Some pid ->
  truthy pid = true ->
  let sid := Dashboard.sound_id sound in
  let stop := Invoke (stop_playback pid) in
  let play :=
    Invoke (play_dual_output
              (Dashboard.playArgs (Dashboard.device1 st) (Dashboard.device2 st)
                                  (Dashboard.volume st) sound)) in
  let cleaned := Dashboard.untrack sid st in
  let adding := Dashboard.setPlayingSoundIds (fun prev => prev ∪ {[sid]}) in
  let final := fst (exec oracle (Dashboard.playSound sound) st) in
  let trace := snd (exec oracle (Dashboard.playSound sound) st) in
  (match oracle stop with
   | Resolved _ =>
       trace = [(st, stop); (cleaned, Sleep 100); (adding cleaned, play)] /\
       JsMap.get sid (Dashboard.playingSoundsRef (adding cleaned)) = None /\
       (sid ∉ Dashboard.playingSoundIds cleaned)
   | Rejected _ =>
       trace = [(st, stop); (adding st, play)]
   end) /\
  (forall snap req, In (snap, req) trace -> Dashboard.idsFor sid snap <= 1) /\
  Dashboard.idsFor sid final <= 1 /\
  (match oracle play with
   | Resolved new => JsMap.get sid (Dashboard.playingSoundsRef final) = Some new
   | Rejected _ => JsMap.get sid (Dashboard.playingSoundsRef final) = None
   end).
Proof.
  intros Hd1 Hd2 Hwf Hget Hpid sid stop play cleaned adding final trace.
  assert (Hwfc : JsMap.wf (Dashboard.playingSoundsRef cleaned))
    by (simpl; now apply JsMap_wf_delete).
  pose proof (playSound_exec oracle sound st) as Hexec.
  cbv zeta in Hexec. rewrite Hd1, Hd2, Hget, Hpid in Hexec. simpl in Hexec.
  rewrite !startPlayback_exec in Hexec. cbv zeta in Hexec.
  fold sid stop play cleaned in Hexec.
  subst final trace. rewrite Hexec. clear Hexec.
  destruct (oracle stop) as [ok|err]; simpl fst; simpl snd.
  - split; [|split; [|split]].
    + repeat split.
      * simpl. apply JsMap_get_delete_eq.
      * simpl. intros Hin. apply elem_of_difference in Hin as [_ Hne].
        apply Hne. now apply elem_of_singleton.
    + intros snap req [Heq|[Heq|[Heq|[]]]]; inversion Heq; subst snap;
        now apply tracked_idsFor.
    + apply tracked_idsFor.
      destruct (oracle play); simpl;
        [now apply JsMap_wf_set, JsMap_wf_delete
        |now apply JsMap_wf_delete, JsMap_wf_delete].
    + destruct (oracle play); simpl.
      * apply JsMap_get_set_eq.
      * apply JsMap_get_delete_eq.
  - split; [|split; [|split]].
    + reflexivity.
    + intros snap req [Heq|[Heq|[]]]; inversion Heq; subst snap;
        now apply tracked_idsFor.
    + apply tracked_idsFor.
      destruct (oracle play); simpl;
        [now apply JsMap_wf_set|now apply JsMap_wf_delete].
    + destruct (oracle play); simpl.
      * apply JsMap_get_set_eq.
      * apply JsMap_get_delete_eq.
Qed.


Lemma restart_stops_before_play_witness :
  let st := Samples.airhornPlaying in
  let trace := snd (exec (Samples.accepting "p2") (Dashboard.playSound Samples.airhorn) st) in
  let final := fst (exec (Samples.accepting "p2") (Dashboard.playSound Samples.airhorn) st) in
  JsMap.get "a" (Dashboard.playingSoundsRef st) = Some "p1" /\
  map snd trace =
    [Invoke (stop_playback "p1"); Sleep 100;
     Invoke (play_dual_output
               (Dashboard.playArgs "mon" "cast" 0.5%Q Samples.airhorn))] /\
  JsMap.get "a" (Dashboard.playingSoundsRef final) = Some "p2".
Proof.
  assert (Hwf : JsMap.wf (Dashboard.playingSoundsRef Samples.airhornPlaying)).
  { apply List.NoDup_cons; [intros []|apply List.NoDup_nil]. }
  pose proof (restart_stops_before_play
                Samples.airhorn Samples.airhornPlaying (Samples.accepting "p2") "p1"
                eq_refl eq_refl Hwf eq_refl eq_refl) as H.
  cbv zeta in H. destruct H as ((Htrace & _ & _) & _ & _ & Hfinal).
  cbv zeta. split; [reflexivity|]. split.
  - rewrite Htrace. reflexivity.
  - exact Hfinal.
Defined.

(** C1 as stated fails when the stop command rejects: the play command
    is issued right after the failed stop, with no wait, while the ref
    and the playing set still hold the prior playback of the sound. *)
Lemma restart_keeps_entry_when_stop_fails :
  let st := Samples.airhornPlaying in
  let trace := snd (exec (Samples.rejectingStop "p2") (Dashboard.playSound Samples.airhorn) st) in
  JsMap.get "a" (Dashboard.playingSoundsRef st) = Some "p1" /\
  map snd trace =
    [Invoke (stop_playback "p1");
     Invoke (play_dual_output
               (Dashboard.playArgs "mon" "cast" 0.5%Q Samples.airhorn))] /\
  map (fun e => JsMap.get "a" (Dashboard.playingSoundsRef (fst e))) trace =
    [Some "p1"; Some "p1"].
Proof. cbv zeta. repeat split. Qed.

(* ===================================================================== *)
(** * Dashboard: events after completion *)
(* ===================================================================== *)

Section DashboardCompletion.

Import Dashboard.

Implicit Types (st : State) (p sid : string) (m : JsMap.t).

Lemma findSoundId_Some p m sid : findSoundId p m = Some sid -> In (sid, p) m.
Proof.
  induction m as [|[s q] m IH]; simpl; [discriminate|].
  destruct (String.eqb_spec q p) as [->|Hne].
  - intros [= ->]. now left.
  - intros H. right. auto.
Qed.

Lemma findSoundId_None p m : findSoundId p m = None <-> forall sid, ~ In (sid, p) m.
Proof.
  induction m as [|[s q] m IH]; simpl; [tauto|].
  destruct (String.eqb_spec q p) as [->|Hne].
  - split; [discriminate|]. intros H. exfalso. apply (H s). now left.
  - rewrite IH. split.
    + intros H sid [[= -> ->]|Hin]; [congruence|]. now apply (H sid).
    + intros H sid Hin. apply (H sid). now right.
Qed.

Lemma JsMap_delete_In sid s p m :
  In (s, p) (JsMap.delete sid m) -> In (s, p) m /\ s <> sid.
Proof.
  induction m as [|[a b] m IH]; simpl; [tauto|].
  destruct (String.eqb_spec a sid) as [->|Hne].
  - intros H. apply IH in H. tauto.
  - intros [[= -> ->]|H]; [tauto|]. apply IH in H. tauto.
Qed.

(** A playback id held by no entry: both listeners leave the state alone. *)
Lemma untracked_id_ignored p st :
  findSoundId p (playingSoundsRef st) = None ->
  (forall ev, playback_id ev = p -> onPlaybackProgress ev st = st) /\
  onPlaybackComplete p st = st.
Proof.
  intros H. split.
  - intros ev <-. unfold onPlaybackProgress, JsMap.entries. now rewrite H.
  - unfold onPlaybackComplete, JsMap.entries. now rewrite H.
Qed.

End DashboardCompletion.

(** ** C4 *)

(** C4.  Processing the completion event of [p] removes [p] from the
    tracking ref whenever playback ids are unique (at most one sound id
    holds [p]) and sound ids are non-empty.  Once [p] is removed, a
    progress event for [p] processed afterwards leaves the whole state,
    tracking and active waveform included, unchanged, and so does a
    second completion event for [p]. *)
Theorem events_after_completion_are_ignored (st : Dashboard.State) (p : string) :
  let st' := Dashboard.onPlaybackComplete p st in
  let removed := forall sid, ~ In (sid, p) (Dashboard.playingSoundsRef st') in
  ((forall s1 s2, In (s1, p) (Dashboard.playingSoundsRef st) ->
                  In (s2, p) (Dashboard.playingSoundsRef st) -> s1 = s2) ->
   (forall sid, In (sid, p) (Dashboard.playingSoundsRef st) -> truthy sid = true) ->
   removed) /\
  (removed ->
   (forall ev, Dashboard.playback_id ev = p ->
               Dashboard.onPlaybackProgress ev st' = st') /\
   Dashboard.onPlaybackComplete p st' = st').
Proof.
  intros st' removed. split.
  - intros Huniq Htruthy. subst removed. apply findSoundId_None.
    subst st'. unfold Dashboard.onPlaybackComplete, JsMap.entries.
    destruct (Dashboard.findSoundId p (Dashboard.playingSoundsRef st)) as [sid|] eqn:E;
      [|exact E].
    apply findSoundId_Some in E.
    rewrite (Htruthy sid E).
    destruct (completeWaveform_tracking sid (Dashboard.untrack sid st)) as [-> _].
    simpl. apply findSoundId_None. intros s Hin.
    apply JsMap_delete_In in Hin as [Hin Hne].
    apply Hne. now apply Huniq.
  - intros Hgone. apply untracked_id_ignored. now apply findSoundId_None.
Qed.

Lemma events_after_completion_are_ignored_witness :
  let st := Samples.airhornPlaying in
  let st' := Dashboard.onPlaybackComplete "p1" st in
  Dashboard.playingSoundsRef st = [("a", "p1")] /\
  Dashboard.playingSoundsRef st' = [] /\
  Dashboard.onPlaybackProgress
    {| Dashboard.playback_id := "p1"; Dashboard.elapsed_ms := 120%Q;
       Dashboard.total_ms := 1500%Q; Dashboard.progress_pct := 8%Q |} st' = st' /\
  Dashboard.onPlaybackComplete "p1" st' = st'.
Proof.
  assert (Huniq : forall s1 s2,
             In (s1, "p1") (Dashboard.playingSoundsRef Samples.airhornPlaying) ->
             In (s2, "p1") (Dashboard.playingSoundsRef Samples.airhornPlaying) ->
             s1 = s2).
  { intros s1 s2 [H1|[]] [H2|[]]. congruence. }
  assert (Htruthy : forall sid,
             In (sid, "p1") (Dashboard.playingSoundsRef Samples.airhornPlaying) ->
             truthy sid = true).
  { intros sid [H|[]]. inversion H. reflexivity. }
  destruct (events_after_completion_are_ignored Samples.airhornPlaying "p1")
    as (Hremoved & Hignored).
  destruct (Hignored (Hremoved Huniq Htruthy)) as (Hprog & Hcomp).
  cbv zeta. split; [reflexivity|]. split; [reflexivity|]. split.
  - apply Hprog. reflexivity.
  - exact Hcomp.
Defined.

(** ** C6 *)



(* ===================================================================== *)
(** * WaveformQueue: serialisation, order, settlement *)
(* ===================================================================== *)

Section WaveformQueueFacts.

Import WaveformQueue.

(** Two requests added back to back: the second waits for the answer
    to the first and for the delay. *)
Example two_requests :
  let one := {| filePath := "a.mp3"; numPeaks := 100%Q; ticket := 1 |} in
  let two := {| filePath := "b.mp3"; numPeaks := 100%Q; ticket := 2 |} in
  let data := {| peaks := [0.5%Q]; duration_ms := 900%Q |} in
  let st1 := runEvents [Add one; Add two] in
  let st2 := runEvents [Add one; Add two; InvokeSettles 0 (Returned data)] in
  let st3 := runEvents [Add one; Add two; InvokeSettles 0 (Returned data);
                        DelayElapses 0] in
  (invoked st1 = [get_waveform "a.mp3" 100%Q] /\ queue st1 = [two]) /\
  (procs st2 = [AwaitDelay 20] /\ settled st2 = [(one, resolve data)]) /\
  (invoked st3 = [get_waveform "a.mp3" 100%Q; get_waveform "b.mp3" 100%Q] /\
   procs st3 = [AwaitInvoke two]).
Proof. repeat split. Qed.

Implicit Types (st : State) (e : Event) (es : list Event)
               (a : list QueueItem) (item : QueueItem).

Lemma added_app es es' : added (es ++ es') = added es ++ added es'.
Proof.
  induction es as [|[item|i r|i] es IH]; simpl; [reflexivity| |assumption|assumption].
  now rewrite IH.
Qed.

Lemma consistent_initial : consistent [] initial.
Proof. unfold consistent. simpl. split; [reflexivity|]. split; [reflexivity|]. left. auto. Qed.

Ltac wq_norm :=
  repeat (rewrite ?List.app_nil_r, ?List.map_app, <- ?List.app_assoc; simpl).

Ltac wq_shape :=
  first
    [ solve [left; repeat split; reflexivity]
    | solve [right; left; eexists; split; reflexivity]
    | solve [right; right; repeat split;
             first [reflexivity | discriminate | assumption
                   | intros H; apply (f_equal (@length _)) in H;
                     rewrite ?length_app in H; simpl in H; lia]] ].

Ltac wq_close :=
  wq_norm; split; [reflexivity|]; split; [reflexivity|]; wq_shape.

Lemma consistent_step a st e :
  consistent a st -> consistent (a ++ added [e]) (step st e).
Proof.
  destruct st as [q ip ps inv stl]. unfold consistent. simpl.
  intros (Ha & Hinv & Hshape).
  destruct Hshape as [(-> & -> & ->)|[(item & -> & ->)|(-> & -> & Hq)]];
    simpl in *; subst a inv.
  - (* idle *)
    destruct e as [item|i r|i]; simpl.
    + unfold add, process, loop. simpl. wq_close.
    + unfold invokeSettles. simpl. destruct i; simpl; wq_close.
    + unfold delayElapses. simpl. destruct i; simpl; wq_close.
  - (* at the backend call *)
    destruct e as [item'|i r|i]; simpl.
    + unfold add, process. simpl. wq_close.
    + unfold invokeSettles. simpl. destruct i as [|i]; simpl.
      * destruct q as [|next q]; simpl; unfold loop; simpl; wq_close.
      * destruct i; simpl; wq_close.
    + unfold delayElapses. simpl. destruct i as [|i]; simpl;
        [|destruct i; simpl]; wq_close.
  - (* at the delay *)
    destruct e as [item'|i r|i]; simpl.
    + unfold add, process. simpl. wq_close.
    + unfold invokeSettles. simpl. destruct i as [|i]; simpl;
        [|destruct i; simpl]; wq_close.
    + unfold delayElapses. simpl. destruct i as [|i]; simpl.
      * destruct q as [|next q]; [congruence|]. unfold loop. simpl. wq_close.
      * destruct i; simpl; wq_close.
Qed.

Lemma runEvents_snoc es e : runEvents (es ++ [e]) = step (runEvents es) e.
Proof. unfold runEvents. now rewrite fold_left_app. Qed.

Lemma consistent_runEvents es : consistent (added es) (runEvents es).
Proof.
  induction es as [|e es IH] using rev_ind.
  - exact consistent_initial.
  - rewrite runEvents_snoc, added_app. now apply consistent_step.
Qed.



End WaveformQueueFacts.

(** ** C9 *)


(** ** C5 *)

(** C5, as the code has it.  [playSound], with both devices configured,
    issues the play command once, with the file path, the two device
    ids, the volume (the sound's own, else the dashboard's), and the
    optional trim start and end of the sound; the sound id is not among
    the arguments; the playback id the command returns is recorded for
    the sound.  The queue issues [get_waveform] with the file path and
    the number of peaks of a request, and resolves the request with the
    record of peaks and duration the command returns. *)
Theorem play_and_waveform_commands :
  (forall (sound : Dashboard.Sound) (st : Dashboard.State) (oracle : Request -> Response),
      let args :=
        {| filePath := Dashboard.file_path sound;
           deviceId1 := Dashboard.device1 st;
           deviceId2 := Dashboard.device2 st;
           pvolume := match Dashboard.sound_volume sound with
                      | Some v => v
                      | None => Dashboard.volume st
                      end;
           trimStartMs := Dashboard.trim_start_ms sound;
           trimEndMs := Dashboard.trim_end_ms sound |} in
      let configured := truthy (Dashboard.device1 st) && truthy (Dashboard.device2 st) in
      let final := fst (exec oracle (Dashboard.playSound sound) st) in
      let trace := snd (exec oracle (Dashboard.playSound sound) st) in
      Dashboard.playCommands trace = (if configured then [args] else []) /\
      match oracle (Invoke (play_dual_output args)) with
      | Resolved playbackId =>
          if configured
          then JsMap.get (Dashboard.sound_id sound) (Dashboard.playingSoundsRef final)
               = Some playbackId
          else True
      | Rejected _ => True
      end) /\
  (forall (item : WaveformQueue.QueueItem) (data : WaveformQueue.WaveformData),
      let st := WaveformQueue.add item WaveformQueue.initial in
      WaveformQueue.invoked st =
        [get_waveform (WaveformQueue.filePath item) (WaveformQueue.numPeaks item)] /\
      WaveformQueue.settled
        (WaveformQueue.invokeSettles 0 (WaveformQueue.Returned data) st)
      = [(item, WaveformQueue.resolve
                  {| WaveformQueue.peaks := WaveformQueue.peaks data;
                     WaveformQueue.duration_ms := WaveformQueue.duration_ms data |})]).
Proof.
  split.
  - intros sound st oracle args configured final trace.
    subst final trace configured. rewrite playSound_exec. cbv zeta.
    fold (Dashboard.playArgs (Dashboard.device1 st) (Dashboard.device2 st)
            (Dashboard.volume st) sound) in args.
    destruct (truthy (Dashboard.device1 st)), (truthy (Dashboard.device2 st));
      simpl;
      try (split; [reflexivity|];
           destruct (oracle (Invoke (play_dual_output args))); exact I).
    destruct (JsMap.get (Dashboard.sound_id sound) (Dashboard.playingSoundsRef st))
      as [pid|].
    + destruct (truthy pid).
      * destruct (oracle (Invoke (stop_playback pid)));
          rewrite !startPlayback_exec; cbv zeta; fold args; simpl;
          (split; [reflexivity|]);
          destruct (oracle (Invoke (play_dual_output args))); simpl; trivial;
          apply JsMap_get_set_eq.
      * rewrite !startPlayback_exec; cbv zeta; fold args; simpl.
        split; [reflexivity|].
        destruct (oracle (Invoke (play_dual_output args))); simpl; trivial.
        apply JsMap_get_set_eq.
    + rewrite !startPlayback_exec; cbv zeta; fold args; simpl.
      split; [reflexivity|].
      destruct (oracle (Invoke (play_dual_output args))); simpl; trivial.
      apply JsMap_get_set_eq.
  - intros item [pk dur]. split; reflexivity.
Qed.

(** C5 as stated fails on the sound id: it is not an argument of the
    play command.  Two sounds that differ in their id alone make
    [playSound] issue the same requests. *)
Lemma play_command_omits_sound_id :
  Dashboard.sound_id Samples.airhorn <> Dashboard.sound_id Samples.airhornCopy /\
  map snd (snd (exec (Samples.accepting "p1")
                     (Dashboard.playSound Samples.airhorn) Samples.mounted))
  = map snd (snd (exec (Samples.accepting "p1")
                       (Dashboard.playSound Samples.airhornCopy) Samples.mounted)) /\
  map snd (snd (exec (Samples.accepting "p1")
                     (Dashboard.playSound Samples.airhorn) Samples.mounted))
  = [Invoke (play_dual_output
               {| filePath := "C:/sounds/airhorn.mp3"; deviceId1 := "mon";
                  deviceId2 := "cast"; pvolume := 0.5%Q;
                  trimStartMs := None; trimEndMs := Some 1500%Q |})].
Proof. split; [discriminate|]. split; reflexivity. Qed.

(* ===================================================================== *)
(** * Settings: the boost controls *)
(* ===================================================================== *)

(** ** C7 *)

(** C7.  Whatever the boost checkbox and the boost slider deliver, the
    handler leaves [volume_multiplier] within [1.0, 3.0]: the checkbox
    writes exactly 2.0 when checked and 1.0 when unchecked, and the
    slider, which reports values between its [min] 1.1 and its [max]
    3.0, writes a value within [1.1, 3.0]. *)
Theorem boost_controls_keep_multiplier_in_range
    (s : Settings.AppSettings) (e : Settings.BoostEvent) :
  Settings.deliverable s e ->
  let s' := Settings.handle e s in
  ((1.0 <= Settings.volume_multiplier s')%Q /\
   (Settings.volume_multiplier s' <= 3.0)%Q) /\
  match e with
  | Settings.ToggleBoost checked =>
      Settings.volume_multiplier s' = (if checked then 2.0 else 1.0)%Q
  | Settings.SlideBoost _ =>
      (1.1 <= Settings.volume_multiplier s')%Q /\
      (Settings.volume_multiplier s' <= 3.0)%Q
  end.
Proof.
  destruct e as [checked|v]; simpl.
  - intros _. destruct checked; simpl; repeat split; discriminate.
  - intros [_ [Hmin Hmax]]. simpl in Hmin, Hmax. repeat split; try assumption.
    apply Qle_trans with (y := 1.1%Q); [discriminate|assumption].
Qed.

Lemma boost_controls_keep_multiplier_in_range_witness :
  let s := Settings.onBoostToggle true Settings.initialSettings in
  Settings.deliverable s (Settings.SlideBoost 2.5%Q) /\
  Settings.volume_multiplier (Settings.handle (Settings.SlideBoost 2.5%Q) s) = 2.5%Q /\
  (1.0 <= Settings.volume_multiplier (Settings.handle (Settings.SlideBoost 2.5%Q) s))%Q /\
  (Settings.volume_multiplier (Settings.handle (Settings.SlideBoost 2.5%Q) s) <= 3.0)%Q.
Proof.
  assert (H : Settings.deliverable
                (Settings.onBoostToggle true Settings.initialSettings)
                (Settings.SlideBoost 2.5%Q)).
  { simpl. unfold Settings.boostSliderRendered, Settings.reports. simpl.
    repeat split; discriminate. }
  destruct (boost_controls_keep_multiplier_in_range _ _ H) as [[Hlo Hhi] _].
  cbv zeta. split; [exact H|]. split; [reflexivity|]. split; assumption.
Defined.

(** Every settings state produced by the boost handlers is in range. *)
Lemma produced_multiplier_in_range (s' : Settings.AppSettings) :
  Settings.produced s' ->
  (1.0 <= Settings.volume_multiplier s')%Q /\
  (Settings.volume_multiplier s' <= 3.0)%Q.
Proof.
  intros [s e H]. destruct e as [checked|v]; simpl.
  - destruct checked; simpl; split; discriminate.
  - destruct H as [_ [Hmin Hmax]]. simpl in Hmin, Hmax. split; [|assumption].
    apply Qle_trans with (y := 1.1%Q); [discriminate|assumption].
Qed.

(* ===================================================================== *)
(** * Gain calculator: monotonicity and end points *)
(* ===================================================================== *)

Section GainFacts.

Import GainCalculator.
Local Open Scope R_scope.

Lemma loudness_gain_bounds loudness enabled target :
  0.1 <= loudness_gain loudness enabled target <= 4.0.
Proof.
  unfold loudness_gain. destruct enabled; [|lra].
  destruct loudness as [v|]; [|lra].
  split.
  - apply Rmax_l.
  - apply Rmax_lub; [lra|apply Rmin_l].
Qed.

End GainFacts.

(** ** C8 *)

(** C8.  With a non-negative ceiling, a non-negative per-sound volume
    and the global multiplier within [1.0, 3.0], the gain does not
    decrease when the slider goes up within [0, 1], the gain at slider 0
    is 0, and the gain at slider 1 is
    [0.2 * global_multiplier * loudness_gain * per_sound_volume]
    clamped to the ceiling. *)
Theorem gain_monotone_with_end_points
    (ceiling per_sound_volume global_multiplier : R)
    (loudness : option R) (normalization_enabled : bool) (target_loudness : R)
    (s1 s2 : R) :
  (0 <= ceiling)%R ->
  (0 <= per_sound_volume)%R ->
  (1.0 <= global_multiplier <= 3.0)%R ->
  (0 <= s1 <= s2)%R -> (s2 <= 1)%R ->
  let gain s :=
    GainCalculator.compute_gain ceiling s per_sound_volume global_multiplier
      loudness normalization_enabled target_loudness in
  (gain s1 <= gain s2)%R /\
  gain 0%R = 0%R /\
  gain 1%R =
    Rmin ceiling
      (0.2 * global_multiplier
       * GainCalculator.loudness_gain loudness normalization_enabled target_loudness
       * per_sound_volume)%R.
Proof.
  intros Hc Hv Hg Hs Hs2 gain. subst gain. unfold GainCalculator.compute_gain.
  pose proof (loudness_gain_bounds loudness normalization_enabled target_loudness)
    as Hl.
  set (lg := GainCalculator.loudness_gain loudness normalization_enabled target_loudness)
    in *.
  unfold GainCalculator.slider_curve, GainCalculator.SAFETY_ATTENUATION.
  split; [|split].
  - apply Rle_min_compat_l.
    assert (Hpow : (s1 ^ 4 <= s2 ^ 4)%R) by (apply pow_incr; lra).
    assert (Hk : (0 <= 0.2 * global_multiplier * lg * per_sound_volume)%R).
    { apply Rmult_le_pos; [|assumption].
      apply Rmult_le_pos; [|lra].
      apply Rmult_le_pos; lra. }
    replace (s1 ^ 4 * 0.2 * global_multiplier * lg * per_sound_volume)%R
      with (s1 ^ 4 * (0.2 * global_multiplier * lg * per_sound_volume))%R by ring.
    replace (s2 ^ 4 * 0.2 * global_multiplier * lg * per_sound_volume)%R
      with (s2 ^ 4 * (0.2 * global_multiplier * lg * per_sound_volume))%R by ring.
    now apply Rmult_le_compat_r.
  - replace (0 ^ 4 * 0.2 * global_multiplier * lg * per_sound_volume)%R
      with 0%R by ring.
    now apply Rmin_right.
  - f_equal. ring.
Qed.

Lemma gain_monotone_with_end_points_witness :
  let gain s :=
    GainCalculator.compute_gain 1%R s 1%R 2%R None false (-14)%R in
  (0 <= 1)%R /\ (1.0 <= 2 <= 3.0)%R /\ (0 <= 0.25 <= 0.5)%R /\ (0.5 <= 1)%R /\
  (gain 0.25%R <= gain 0.5%R)%R /\ gain 0%R = 0%R.
Proof.
  assert (H0 : (0 <= 1)%R) by lra.
  assert (H1 : (1.0 <= 2 <= 3.0)%R) by lra.
  assert (H2 : (0 <= 0.25 <= 0.5)%R) by lra.
  assert (H3 : (0.5 <= 1)%R) by lra.
  destruct (gain_monotone_with_end_points
              1%R 1%R 2%R None false (-14)%R 0.25%R 0.5%R H0 H0 H1 H2 H3)
    as (Hmono & Hzero & _).
  cbv zeta. repeat split; try lra; assumption.
Defined.

(* ===================================================================== *)
(** * Hotkey display: format then parse *)
(* ===================================================================== *)

Section HotkeyFacts.

Import HotkeyDisplay.

Implicit Types (s cur d rest h p : string) (c : ascii).

(** The cases of [hotkeyDisplay.test.ts] quoted in the conventions. *)
Example format_Ctrl : formatHotkeyForDisplay "Ctrl" = "Ctrl".
Proof. reflexivity. Qed.

Example format_Super : formatHotkeyForDisplay "Super" = "Win".
Proof. reflexivity. Qed.

Example format_Ctrl_A : formatHotkeyForDisplay "Ctrl+A" = "Ctrl + A".
Proof. reflexivity. Qed.

Example format_trims_and_capitalises :
  formatHotkeyForDisplay " Shift + k" = "Shift + K".
Proof. reflexivity. Qed.

Example parse_arrows : parseDisplayHotkey "Alt + ↑" = "Alt+ArrowUp".
Proof. reflexivity. Qed.

Lemma append_String c s rest : (String c s +:+ rest) = String c (s +:+ rest).
Proof. reflexivity. Qed.

Lemma append_Empty rest : (EmptyString +:+ rest) = rest.
Proof. reflexivity. Qed.

Lemma append_snoc cur c s :
  ((cur +:+ String c EmptyString) +:+ s) = (cur +:+ String c s).
Proof.
  induction cur as [|a cur IH]; [reflexivity|].
  rewrite !append_String. now rewrite IH.
Qed.

Lemma append_empty_r s : (s +:+ EmptyString) = s.
Proof.
  induction s as [|a s IH]; [reflexivity|].
  rewrite append_String. now rewrite IH.
Qed.

Lemma splitGo_cons sep k cur s : exists x l, splitGo sep k cur s = x :: l.
Proof.
  revert k cur. induction s as [|c s IH]; intros k cur; simpl; [eauto|].
  destruct k; [|apply IH].
  destruct (startsWith sep (String c s)); [eauto|apply IH].
Qed.

Lemma join_cons sep x y l :
  join sep (x :: y :: l) = (x +:+ sep +:+ join sep (y :: l)).
Proof. reflexivity. Qed.

Lemma splitGo_step sep cur c s :
  splitGo sep 0 cur (String c s)
  = if startsWith sep (String c s)
    then cur :: splitGo sep (String.length sep - 1) EmptyString s
    else splitGo sep 0 (cur +:+ String c EmptyString) s.
Proof. reflexivity. Qed.

(** Joining the pieces of a split on ["+"] gives the string back. *)
Lemma join_splitGo_plus s : forall cur,
  join "+" (splitGo "+" 0 cur s) = (cur +:+ s).
Proof.
  induction s as [|c s IH]; intros cur.
  - simpl. now rewrite append_empty_r.
  - rewrite splitGo_step.
    change (startsWith "+" (String c s)) with (Ascii.eqb "+" c && true).
    change (String.length "+" - 1) with 0.
    destruct (Ascii.eqb_spec "+" c) as [<-|Hne]; cbn [andb].
    + destruct (splitGo_cons "+" 0 EmptyString s) as (x & l & E).
      rewrite E, join_cons, <- E, IH. reflexivity.
    + rewrite IH. apply append_snoc.
Qed.

Lemma join_split_plus h : join "+" (split "+" h) = h.
Proof. unfold split. now rewrite join_splitGo_plus. Qed.

Lemma startsWith_cons a pre b s :
  startsWith (String a pre) (String b s) = Ascii.eqb a b && startsWith pre s.
Proof. reflexivity. Qed.

(** After a character that is not ["+"], no [" + "] starts as long as
    the next character is not ["+"] either. *)
Lemma no_separator_here c s :
  Ascii.eqb c "+" = false ->
  (match s with
   | EmptyString => true
   | String c2 _ => negb (Ascii.eqb c2 "+")
   end = true) ->
  startsWith " + " (String c s) = false.
Proof.
  intros Hc Hs. rewrite startsWith_cons.
  destruct (Ascii.eqb " " c); [|reflexivity]. cbn [andb].
  destruct s as [|c2 s]; [reflexivity|].
  apply negb_true_iff in Hs.
  rewrite startsWith_cons, Ascii.eqb_sym, Hs. reflexivity.
Qed.

(** A piece without ["+"] followed by [" + "] is cut off there. *)
Lemma splitGo_display_cut d : forall cur rest,
  noPlus d = true ->
  splitGo " + " 0 cur (d +:+ " + " +:+ rest)
  = (cur +:+ d) :: splitGo " + " 0 EmptyString rest.
Proof.
  induction d as [|c d IH]; intros cur rest Hd.
  - rewrite append_Empty, append_empty_r. reflexivity.
  - simpl in Hd. apply andb_prop in Hd as [Hc Hd].
    apply negb_true_iff in Hc.
    rewrite append_String, splitGo_step, no_separator_here.
    + rewrite IH by assumption. now rewrite append_snoc.
    + assumption.
    + destruct d as [|c2 d]; [reflexivity|].
      rewrite append_String. simpl in Hd.
      now apply andb_prop in Hd as [Hc2 _].
Qed.

(** A piece without ["+"] is not cut. *)
Lemma splitGo_display_whole d : forall cur,
  noPlus d = true -> splitGo " + " 0 cur d = [cur +:+ d].
Proof.
  induction d as [|c d IH]; intros cur Hd.
  - simpl. now rewrite append_empty_r.
  - simpl in Hd. apply andb_prop in Hd as [Hc Hd].
    apply negb_true_iff in Hc.
    rewrite splitGo_step, no_separator_here.
    + rewrite IH by assumption. now rewrite append_snoc.
    + assumption.
    + destruct d as [|c2 d]; [reflexivity|].
      simpl in Hd. now apply andb_prop in Hd as [Hc2 _].
Qed.

(** *** The keys one by one *)

Lemma digit_plain c :
  isDigit c = true ->
  ws1 c = false /\ lead2 c = false /\ lead3 c = false /\ Ascii.eqb c "+" = false.
Proof.
  destruct c as [[] [] [] [] [] [] [] []]; vm_compute; intros H;
    try discriminate H; auto.
Qed.

Lemma trimStart_plain a r :
  ws1 a = false -> lead2 a = false -> lead3 a = false ->
  trimStart (String a r) = String a r.
Proof. intros H1 H2 H3. cbn [trimStart]. now rewrite H1, H2, H3. Qed.

Lemma allWs_plain a r :
  ws1 a = false -> lead2 a = false -> lead3 a = false ->
  allWs (String a r) = false.
Proof. intros H1 H2 H3. cbn [allWs]. now rewrite H1, H2, H3. Qed.

Lemma trimEnd_digits r : allDigits r = true -> trimEnd r = r.
Proof.
  induction r as [|d r IH]; [reflexivity|].
  cbn [allDigits]. intros H. apply andb_prop in H as [Hd Hr].
  destruct (digit_plain d Hd) as (H1 & H2 & H3 & _).
  cbn [trimEnd]. rewrite allWs_plain by assumption. now rewrite IH.
Qed.

Lemma noPlus_digits r : allDigits r = true -> noPlus r = true.
Proof.
  induction r as [|d r IH]; [reflexivity|].
  cbn [allDigits noPlus]. intros H. apply andb_prop in H as [Hd Hr].
  destruct (digit_plain d Hd) as (_ & _ & _ & ->). now rewrite IH.
Qed.

Lemma isFunctionKey_inv p :
  isFunctionKey p = true ->
  exists r, p = String "F" r /\ allDigits r = true.
Proof.
  destruct p as [|c [|d r]]; try discriminate.
  - destruct c as [[] [] [] [] [] [] [] []]; discriminate.
  - destruct c as [[] [] [] [] [] [] [] []]; try discriminate.
    intros H. exists (String d r). split; [reflexivity|exact H].
Qed.

Lemma trim_functionKey r :
  allDigits r = true -> trim (String "F" r) = String "F" r.
Proof.
  intros Hr. unfold trim.
  rewrite trimStart_plain by reflexivity.
  cbn [trimEnd]. rewrite allWs_plain by reflexivity.
  now rewrite trimEnd_digits.
Qed.

Lemma formatPart_functionKey p : isFunctionKey p = true -> formatPart p = p.
Proof.
  intros H. destruct (isFunctionKey_inv p H) as (r & -> & Hr).
  unfold formatPart. rewrite trim_functionKey by assumption. cbv zeta.
  replace (switch (String "F" r) formatModifiers) with (@None string)
    by reflexivity.
  replace (startsWith "NumPad" (String "F" r)) with false by reflexivity.
  now rewrite H.
Qed.

Lemma parsePart_functionKey p : isFunctionKey p = true -> parsePart p = p.
Proof.
  intros H. destruct (isFunctionKey_inv p H) as (r & -> & Hr).
  unfold parsePart. rewrite trim_functionKey by assumption. cbv zeta.
  replace (switch (String "F" r) parseModifiers) with (@None string)
    by reflexivity.
  replace (startsWith "Numpad " (String "F" r)) with false by reflexivity.
  replace (switch (String "F" r) parseArrows) with (@None string)
    by reflexivity.
  replace (switch (String "F" r) parseSpecial) with (@None string)
    by reflexivity.
  reflexivity.
Qed.

Lemma isNamedKey_In p : isNamedKey p = true -> In p namedKeys.
Proof.
  unfold isNamedKey. intros H. apply existsb_exists in H as (k & Hin & Heq).
  apply String.eqb_eq in Heq. now subst k.
Qed.

(** Format then parse gives a canonical key back. *)
Lemma parsePart_formatPart p :
  canonicalKey p = true -> parsePart (formatPart p) = p.
Proof.
  unfold canonicalKey. intros H.
  apply orb_prop in H as [H|H]; [apply orb_prop in H as [H|H]|].
  - apply isNamedKey_In in H. unfold namedKeys, modifierKeys, numPadKeys,
      arrowKeys, specialKeys in H. cbn [app In] in H.
    repeat (destruct H as [<-|H]; [vm_compute; reflexivity|]).
    destruct H.
  - rewrite formatPart_functionKey by assumption.
    now apply parsePart_functionKey.
  - destruct p as [|c [|]]; try discriminate.
    destruct c as [[] [] [] [] [] [] [] []]; vm_compute in H;
      try discriminate H; vm_compute; reflexivity.
Qed.

(** The display form of a canonical key has no ["+"], that of
    [NumPadAdd] apart. *)
Lemma formatPart_noPlus p :
  canonicalKey p = true -> String.eqb p "NumPadAdd" = false ->
  noPlus (formatPart p) = true.
Proof.
  unfold canonicalKey. intros H Hadd.
  apply orb_prop in H as [H|H]; [apply orb_prop in H as [H|H]|].
  - apply isNamedKey_In in H. unfold namedKeys, modifierKeys, numPadKeys,
      arrowKeys, specialKeys in H. cbn [app In] in H.
    repeat (destruct H as [<-|H];
            [first [discriminate Hadd | vm_compute; reflexivity]|]).
    destruct H.
  - rewrite formatPart_functionKey by assumption.
    destruct (isFunctionKey_inv p H) as (r & -> & Hr).
    cbn [noPlus]. now rewrite noPlus_digits.
  - destruct p as [|c [|]]; try discriminate.
    destruct c as [[] [] [] [] [] [] [] []]; vm_compute in H;
      try discriminate H; vm_compute; reflexivity.
Qed.

(** Splitting the display string of canonical parts, parsing each
    piece: the parts come back. *)
Lemma parse_display_parts parts :
  parts <> [] ->
  forallb canonicalKey parts = true ->
  forallb (fun k => negb (String.eqb k "NumPadAdd")) (removelast parts) = true ->
  map parsePart (split " + " (join " + " (map formatPart parts))) = parts.
Proof.
  induction parts as [|p [|p2 rest] IH]; intros Hne Hcan Hadd.
  - congruence.
  - cbn [forallb] in Hcan. apply andb_prop in Hcan as [Hp _].
    cbn [map join String.concat]. unfold split.
    destruct (String.eqb p "NumPadAdd") eqn:E.
    + apply String.eqb_eq in E. subst p. vm_compute. reflexivity.
    + rewrite splitGo_display_whole by now apply formatPart_noPlus.
      rewrite append_Empty. cbn [map]. now rewrite parsePart_formatPart.
  - cbn [forallb] in Hcan. apply andb_prop in Hcan as [Hp Hrest].
    change (removelast (p :: p2 :: rest)) with (p :: removelast (p2 :: rest)) in Hadd.
    cbn [forallb] in Hadd. apply andb_prop in Hadd as [Hpadd Haddrest].
    apply negb_true_iff in Hpadd.
    change (map formatPart (p :: p2 :: rest))
      with (formatPart p :: formatPart p2 :: map formatPart rest).
    rewrite join_cons. unfold split.
    rewrite splitGo_display_cut by now apply formatPart_noPlus.
    rewrite append_Empty. cbn [map].
    rewrite parsePart_formatPart by assumption. f_equal.
    apply IH; [discriminate|assumption|assumption].
Qed.

End HotkeyFacts.

(** ** C10 *)

(** C10, as the code has it.  For a hotkey whose ["+"]-separated parts
    are canonical technical key names, with [NumPadAdd] nowhere but in
    the last place, parsing the display form of the hotkey gives the
    hotkey back. *)
Theorem parse_format_roundtrip (h : string) :
  HotkeyDisplay.canonicalHotkey h = true ->
  HotkeyDisplay.numPadAddOnlyLast h = true ->
  HotkeyDisplay.parseDisplayHotkey (HotkeyDisplay.formatHotkeyForDisplay h) = h.
Proof.
  unfold HotkeyDisplay.canonicalHotkey, HotkeyDisplay.numPadAddOnlyLast.
  intros Hcan Hadd.
  unfold HotkeyDisplay.parseDisplayHotkey, HotkeyDisplay.formatHotkeyForDisplay.
  rewrite parse_display_parts; try assumption.
  - apply join_split_plus.
  - unfold HotkeyDisplay.split.
    destruct (splitGo_cons "+" 0 EmptyString h) as (x & l & ->). discriminate.
Qed.

Lemma parse_format_roundtrip_witness :
  HotkeyDisplay.canonicalHotkey "Ctrl+Shift+F12+NumPadAdd" = true /\
  HotkeyDisplay.numPadAddOnlyLast "Ctrl+Shift+F12+NumPadAdd" = true /\
  HotkeyDisplay.formatHotkeyForDisplay "Ctrl+Shift+F12+NumPadAdd"
    = "Ctrl + Shift + F12 + Numpad +" /\
  HotkeyDisplay.parseDisplayHotkey
    (HotkeyDisplay.formatHotkeyForDisplay "Ctrl+Shift+F12+NumPadAdd")
    = "Ctrl+Shift+F12+NumPadAdd".
Proof.
  split; [reflexivity|]. split; [reflexivity|]. split; [reflexivity|].
  apply (parse_format_roundtrip "Ctrl+Shift+F12+NumPadAdd"); reflexivity.
Defined.

(** C10 as stated fails when [NumPadAdd] is followed by another key:
    its display form ["Numpad +"] followed by the separator reads as
    two separators. *)
Lemma numpad_add_before_last_breaks_roundtrip :
  HotkeyDisplay.canonicalHotkey "NumPadAdd+A" = true /\
  HotkeyDisplay.formatHotkeyForDisplay "NumPadAdd+A" = "Numpad + + A" /\
  HotkeyDisplay.split " + " "Numpad + + A" = ["Numpad"; "+ A"] /\
  HotkeyDisplay.parseDisplayHotkey
    (HotkeyDisplay.formatHotkeyForDisplay "NumPadAdd+A") = "Numpad++ A" /\
  HotkeyDisplay.parseDisplayHotkey
    (HotkeyDisplay.formatHotkeyForDisplay "NumPadAdd+A") <> "NumPadAdd+A".
Proof. repeat split. discriminate. Qed.

(* ===================================================================== *)
(** * Dashboard: further properties of the playback handlers *)
(* ===================================================================== *)

Section DashboardMore.

Import Dashboard.

Implicit Types (st : State) (sound : Sound) (sid pid p other : string)
               (m : JsMap.t) (oracle : Request -> Response).

Lemma JsMap_get_In k v m : JsMap.get k m = Some v -> In (k, v) m.
Proof.
  induction m as [|[a b] m IH]; simpl; [discriminate|].
  destruct (String.eqb_spec a k) as [->|Hne].
  - intros [= ->]. now left.
  - intros H. right. auto.
Qed.

Lemma JsMap_In_get k v m : In (k, v) m -> JsMap.get k m <> None.
Proof.
  induction m as [|[a b] m IH]; simpl; [tauto|].
  intros [[= -> ->]|Hin].
  - now rewrite String.eqb_refl.
  - destruct (String.eqb a k); [discriminate|auto].
Qed.

Lemma JsMap_get_None_keys k m : JsMap.get k m = None -> ~ In k (JsMap.keys m).
Proof.
  induction m as [|[a b] m IH]; simpl; [tauto|].
  destruct (String.eqb_spec a k) as [->|Hne]; [discriminate|].
  intros H [Heq|Hin]; [congruence|]. now apply IH.
Qed.

(** Deleting a key that is present once shortens the map by one. *)
Lemma JsMap_size_delete k m :
  JsMap.wf m -> JsMap.get k m <> None ->
  S (JsMap.size (JsMap.delete k m)) = JsMap.size m.
Proof.
  unfold JsMap.wf, JsMap.size. induction m as [|[a b] m IH]; simpl; [congruence|].
  intros Hwf Hget. apply List.NoDup_cons_iff in Hwf as [Hnotin Hnd].
  destruct (String.eqb_spec a k) as [->|Hne].
  - rewrite JsMap_delete_absent; [reflexivity|].
    destruct (JsMap.get k m) as [v|] eqn:E; [|reflexivity].
    exfalso. apply Hnotin. apply JsMap_get_In in E.
    change k with (fst (k, v)). now apply in_map.
  - simpl. f_equal. now apply IH.
Qed.

(** Setting an absent key appends it. *)
Lemma JsMap_set_absent k v m :
  JsMap.get k m = None -> JsMap.set k v m = m ++ [(k, v)].
Proof.
  induction m as [|[a b] m IH]; simpl; [reflexivity|].
  destruct (String.eqb a k); [discriminate|].
  intros H. now rewrite IH.
Qed.

(** Setting a present key keeps the size. *)
Lemma JsMap_size_set_present k v m :
  JsMap.get k m <> None -> JsMap.size (JsMap.set k v m) = JsMap.size m.
Proof.
  unfold JsMap.size. induction m as [|[a b] m IH]; simpl; [congruence|].
  destruct (String.eqb a k); simpl; [reflexivity|].
  intros H. f_equal. now apply IH.
Qed.

Lemma JsMap_has_get k m : JsMap.has k m = true <-> JsMap.get k m <> None.
Proof. unfold JsMap.has. destruct (JsMap.get k m); split; congruence. Qed.

End DashboardMore.

(** X1.  Whatever the backend answers, [playSound] for one sound
    leaves the entry of every other sound in the tracking ref, and its
    membership in the playing set, as they were. *)
Theorem playSound_leaves_other_sounds
    (sound : Dashboard.Sound) (st : Dashboard.State)
    (oracle : Request -> Response) (other : string) :
  other <> Dashboard.sound_id sound ->
  let st' := fst (exec oracle (Dashboard.playSound sound) st) in
  JsMap.get other (Dashboard.playingSoundsRef st')
    = JsMap.get other (Dashboard.playingSoundsRef st) /\
  (other ∈ Dashboard.playingSoundIds st' <-> other ∈ Dashboard.playingSoundIds st).
Proof.
  intros Hne st'. subst st'. rewrite playSound_exec. cbv zeta.
  assert (Hstart : forall x,
    JsMap.get other (Dashboard.playingSoundsRef x)
      = JsMap.get other (Dashboard.playingSoundsRef st) ->
    (other ∈ Dashboard.playingSoundIds x <-> other ∈ Dashboard.playingSoundIds st) ->
    let y := fst (exec oracle
                    (Dashboard.startPlayback (Dashboard.device1 st)
                       (Dashboard.device2 st) (Dashboard.volume st) sound) x) in
    JsMap.get other (Dashboard.playingSoundsRef y)
      = JsMap.get other (Dashboard.playingSoundsRef st) /\
    (other ∈ Dashboard.playingSoundIds y <-> other ∈ Dashboard.playingSoundIds st)).
  { intros x Hget Hset. rewrite startPlayback_exec. cbv zeta.
    destruct (oracle _); simpl.
    - rewrite JsMap_get_set_ne by assumption. split; [assumption|].
      rewrite elem_of_union, elem_of_singleton. tauto.
    - rewrite JsMap_get_delete_ne by assumption. split; [assumption|].
      rewrite elem_of_difference, elem_of_union, elem_of_singleton. tauto. }
  destruct (negb (truthy (Dashboard.device1 st)) || negb (truthy (Dashboard.device2 st)));
    [simpl; tauto|].
  destruct (JsMap.get (Dashboard.sound_id sound) (Dashboard.playingSoundsRef st))
    as [pid|]; [|now apply Hstart].
  destruct (truthy pid); [|now apply Hstart].
  destruct (oracle (Invoke (stop_playback pid))); cbn [fst].
  - apply Hstart; simpl.
    + now apply JsMap_get_delete_ne.
    + rewrite elem_of_difference, elem_of_singleton. tauto.
  - now apply Hstart.
Qed.

Lemma playSound_leaves_other_sounds_witness :
  let st := Samples.airhornPlaying in
  let st' := fst (exec (Samples.accepting "p7")
                       (Dashboard.playSound Samples.airhornCopy) st) in
  "a" <> Dashboard.sound_id Samples.airhornCopy /\
  JsMap.get "a" (Dashboard.playingSoundsRef st') = Some "p1" /\
  Dashboard.playingSoundsRef st' = [("a", "p1"); ("b", "p7")].
Proof.
  assert (Hne : "a" <> Dashboard.sound_id Samples.airhornCopy) by discriminate.
  destruct (playSound_leaves_other_sounds
              Samples.airhornCopy Samples.airhornPlaying
              (Samples.accepting "p7") "a" Hne) as [Hget _].
  cbv zeta. split; [exact Hne|]. split; [exact Hget|reflexivity].
Defined.

(** X2.  With both devices configured, a [playSound] whose play command
    succeeds leaves the sound with exactly the new playback id and
    shows its waveform from the start; the number of tracked sessions
    is unchanged when the sound was tracked before (a restart, or an
    overwrite when the stop command failed) and grows by one
    otherwise. *)
Theorem playSound_success_counts_one_session
    (sound : Dashboard.Sound) (st : Dashboard.State)
    (oracle : Request -> Response) (new : string) :
  truthy (Dashboard.device1 st) = true ->
  truthy (Dashboard.device2 st) = true ->
  JsMap.wf (Dashboard.playingSoundsRef st) ->
  oracle (Invoke (play_dual_output
                    (Dashboard.playArgs (Dashboard.device1 st) (Dashboard.device2 st)
                                        (Dashboard.volume st) sound))) = Resolved new ->
  let st' := fst (exec oracle (Dashboard.playSound sound) st) in
  JsMap.get (Dashboard.sound_id sound) (Dashboard.playingSoundsRef st') = Some new /\
  Dashboard.idsFor (Dashboard.sound_id sound) st' = 1 /\
  Dashboard.activeWaveform st' = Some (Dashboard.waveformOf sound) /\
  Dashboard.activeCount st' =
    (if JsMap.has (Dashboard.sound_id sound) (Dashboard.playingSoundsRef st)
     then Dashboard.activeCount st
     else S (Dashboard.activeCount st)).
Proof.
  intros Hd1 Hd2 Hwf Hplay st'.
  assert (Hstart : forall x,
    JsMap.wf (Dashboard.playingSoundsRef x) ->
    let y := fst (exec oracle
                    (Dashboard.startPlayback (Dashboard.device1 st)
                       (Dashboard.device2 st) (Dashboard.volume st) sound) x) in
    JsMap.get (Dashboard.sound_id sound) (Dashboard.playingSoundsRef y) = Some new /\
    JsMap.wf (Dashboard.playingSoundsRef y) /\
    Dashboard.activeWaveform y = Some (Dashboard.waveformOf sound) /\
    Dashboard.playingSoundsRef y
      = JsMap.set (Dashboard.sound_id sound) new (Dashboard.playingSoundsRef x)).
  { intros x Hx. rewrite startPlayback_exec. cbv zeta. rewrite Hplay. simpl.
    split; [apply JsMap_get_set_eq|]. split; [now apply JsMap_wf_set|]. auto. }
  assert (Hone : forall y,
    JsMap.wf (Dashboard.playingSoundsRef y) ->
    JsMap.get (Dashboard.sound_id sound) (Dashboard.playingSoundsRef y) = Some new ->
    Dashboard.idsFor (Dashboard.sound_id sound) y = 1).
  { intros y Hy Hget. pose proof (tracked_idsFor (Dashboard.sound_id sound) y Hy) as Hle.
    unfold Dashboard.idsFor in *. apply JsMap_get_In in Hget.
    assert (Hin : In (Dashboard.sound_id sound, new)
                     (List.filter (fun e : string * string =>
                                     String.eqb (fst e) (Dashboard.sound_id sound))
                                  (Dashboard.playingSoundsRef y))).
    { apply filter_In. split; [assumption|]. simpl. apply String.eqb_refl. }
    destruct (List.filter _ _) as [|e l]; [destruct Hin|]. simpl in *. lia. }
  subst st'. rewrite playSound_exec. cbv zeta. rewrite Hd1, Hd2. simpl orb. cbv iota.
  unfold Dashboard.activeCount, JsMap.has.
  destruct (JsMap.get (Dashboard.sound_id sound) (Dashboard.playingSoundsRef st))
    as [pid|] eqn:Hget.
  - assert (Hpresent : JsMap.get (Dashboard.sound_id sound)
                         (Dashboard.playingSoundsRef st) <> None) by congruence.
    destruct (truthy pid).
    + destruct (oracle (Invoke (stop_playback pid))); cbn [fst].
      * destruct (Hstart (Dashboard.untrack (Dashboard.sound_id sound) st))
          as (Hg & Hw & Ha & Href); [simpl; now apply JsMap_wf_delete|].
        split; [assumption|]. split; [now apply Hone|]. split; [assumption|].
        rewrite Href. simpl.
        rewrite JsMap_set_absent by apply JsMap_get_delete_eq.
        unfold JsMap.size. rewrite length_app. simpl.
        pose proof (JsMap_size_delete _ _ Hwf Hpresent) as Hs.
        unfold JsMap.size in Hs. lia.
      * destruct (Hstart st Hwf) as (Hg & Hw & Ha & Href).
        split; [assumption|]. split; [now apply Hone|]. split; [assumption|].
        rewrite Href. now apply JsMap_size_set_present.
    + destruct (Hstart st Hwf) as (Hg & Hw & Ha & Href).
      split; [assumption|]. split; [now apply Hone|]. split; [assumption|].
      rewrite Href. now apply JsMap_size_set_present.
  - destruct (Hstart st Hwf) as (Hg & Hw & Ha & Href).
    split; [assumption|]. split; [now apply Hone|]. split; [assumption|].
    rewrite Href, JsMap_set_absent by assumption.
    unfold JsMap.size. rewrite length_app. simpl. lia.
Qed.

Lemma playSound_success_counts_one_session_witness :
  let st := Samples.airhornPlaying in
  let st' := fst (exec (Samples.accepting "p2")
                       (Dashboard.playSound Samples.airhorn) st) in
  Dashboard.activeCount st = 1 /\
  Dashboard.activeCount st' = 1 /\
  Dashboard.playingSoundsRef st' = [("a", "p2")].
Proof.
  assert (Hwf : JsMap.wf (Dashboard.playingSoundsRef Samples.airhornPlaying)).
  { apply List.NoDup_cons; [intros []|apply List.NoDup_nil]. }
  destruct (playSound_success_counts_one_session
              Samples.airhorn Samples.airhornPlaying (Samples.accepting "p2") "p2"
              eq_refl eq_refl Hwf eq_refl) as (_ & _ & _ & Hcount).
  cbv zeta. split; [reflexivity|]. split; [exact Hcount|reflexivity].
Defined.

(** X3.  When the completion event names a playback id that the ref
    holds for a non-empty sound id, the listener removes that sound from
    the ref and from the playing set, leaves every other sound as it
    was, and the number of tracked sessions goes down by exactly one. *)
Theorem completion_removes_only_its_sound
    (st : Dashboard.State) (p sid : string) :
  JsMap.wf (Dashboard.playingSoundsRef st) ->
  Dashboard.findSoundId p (Dashboard.playingSoundsRef st) = Some sid ->
  truthy sid = true ->
  let st' := Dashboard.onPlaybackComplete p st in
  JsMap.get sid (Dashboard.playingSoundsRef st') = None /\
  (sid ∉ Dashboard.playingSoundIds st') /\
  (forall other, other <> sid ->
     JsMap.get other (Dashboard.playingSoundsRef st')
       = JsMap.get other (Dashboard.playingSoundsRef st) /\
     (other ∈ Dashboard.playingSoundIds st' <-> other ∈ Dashboard.playingSoundIds st)) /\
  S (Dashboard.activeCount st') = Dashboard.activeCount st.
Proof.
  intros Hwf Hfind Hsid st'. subst st'.
  unfold Dashboard.onPlaybackComplete, JsMap.entries. rewrite Hfind, Hsid.
  destruct (completeWaveform_tracking sid (Dashboard.untrack sid st)) as [Hr Hs].
  unfold Dashboard.activeCount. rewrite Hr, Hs. simpl.
  split; [apply JsMap_get_delete_eq|]. split.
  - rewrite elem_of_difference, elem_of_singleton. tauto.
  - split.
    + intros other Hne. split; [now apply JsMap_get_delete_ne|].
      rewrite elem_of_difference, elem_of_singleton. tauto.
    + apply JsMap_size_delete; [assumption|].
      apply findSoundId_Some in Hfind. now apply JsMap_In_get in Hfind.
Qed.

Lemma completion_removes_only_its_sound_witness :
  let st := fst (exec (Samples.accepting "p7")
                      (Dashboard.playSound Samples.airhornCopy)
                      Samples.airhornPlaying) in
  let st' := Dashboard.onPlaybackComplete "p1" st in
  Dashboard.playingSoundsRef st = [("a", "p1"); ("b", "p7")] /\
  Dashboard.playingSoundsRef st' = [("b", "p7")] /\
  S (Dashboard.activeCount st') = 2.
Proof.
  set (st := fst (exec (Samples.accepting "p7")
                       (Dashboard.playSound Samples.airhornCopy)
                       Samples.airhornPlaying)).
  assert (Hwf : JsMap.wf (Dashboard.playingSoundsRef st)).
  { apply List.NoDup_cons; [intros [H|[]]; discriminate H|].
    apply List.NoDup_cons; [intros []|apply List.NoDup_nil]. }
  destruct (completion_removes_only_its_sound st "p1" "a" Hwf eq_refl eq_refl)
    as (_ & _ & _ & Hcount).
  cbv zeta. split; [reflexivity|]. split; [reflexivity|exact Hcount].
Defined.

Section DashboardWaveform.

Import Dashboard.



End DashboardWaveform.



(** X5.  When [stop_all_audio] succeeds, the tracking ref and the
    playing set are emptied, and from then on every completion event
    and every progress event leaves the state as it is.  When it
    fails, the ref, the playing set and the shown waveform are as
    before and the error is shown as a toast. *)
Theorem stopAllAudio_outcomes (st : Dashboard.State) (oracle : Request -> Response) :
  let st' := fst (exec oracle Dashboard.stopAllAudio st) in
  match oracle (Invoke stop_all_audio) with
  | Resolved _ =>
      Dashboard.playingSoundsRef st' = [] /\
      Dashboard.playingSoundIds st' = ∅ /\
      (forall p, Dashboard.onPlaybackComplete p st' = st') /\
      (forall ev, Dashboard.onPlaybackProgress ev st' = st')
  | Rejected error =>
      Dashboard.playingSoundsRef st' = Dashboard.playingSoundsRef st /\
      Dashboard.playingSoundIds st' = Dashboard.playingSoundIds st /\
      Dashboard.activeWaveform st' = Dashboard.activeWaveform st /\
      Dashboard.toastMessage st' = Some ("Stop Error: " +:+ error)
  end.
Proof.
  intros st'. subst st'. unfold exec, Dashboard.stopAllAudio. cbn [run].
  destruct (oracle (Invoke stop_all_audio)) as [v|error]; simpl.
  - repeat split.
  - repeat split.
Qed.

Section DashboardTimers.

Import Dashboard DashboardEffects.

Lemma fireTimer_cons cb rest st :
  timers st = cb :: rest ->
  timers (fireTimer st) = rest /\
  isWaveformExiting (fireTimer st) = false /\
  (activeWaveform (fireTimer st) = None \/
   (cb = ResetWaveformExiting /\ activeWaveform (fireTimer st) = activeWaveform st)).
Proof.
  intros H. unfold fireTimer. rewrite H. destruct cb; simpl; auto.
Qed.

Lemma fireTimers_all l : forall st,
  timers st = l ->
  let st' := Nat.iter (length l) fireTimer st in
  timers st' = [] /\
  (l <> [] -> isWaveformExiting st' = false) /\
  (In ClearWaveformAndExiting l \/ activeWaveform st = None ->
   activeWaveform st' = None).
Proof.
  induction l as [|cb rest IH]; intros st H.
  - simpl. split; [assumption|]. split; [congruence|]. intros [[]|Hn]. exact Hn.
  - cbn [length]. rewrite Nat.iter_succ_r.
    destruct (fireTimer_cons cb rest st H) as (Ht & He & Hw).
    destruct (IH (fireTimer st) Ht) as (IH1 & IH2 & IH3). cbv zeta in *.
    split; [assumption|]. split.
    + intros _. destruct rest as [|cb2 rest2]; [exact He|].
      apply IH2. discriminate.
    + intros [[Hc|Hin]|Hn].
      * apply IH3. right. destruct Hw as [Hw|[Hcb _]]; [assumption|congruence].
      * apply IH3. now left.
      * apply IH3. right. destruct Hw as [Hw|[_ Hw]]; [assumption|congruence].
Qed.

(** Timers do not touch the tracking ref. *)
Lemma fireTimers_tracking n : forall st,
  playingSoundsRef (Nat.iter n fireTimer st) = playingSoundsRef st.
Proof.
  induction n as [|n IH]; intros st; [reflexivity|].
  rewrite Nat.iter_succ_r, IH. unfold fireTimer.
  destruct (timers st) as [|[] rest]; reflexivity.
Qed.

End DashboardTimers.

(** X6.  Once [stop_all_audio] has succeeded and the pending 300 ms
    timers have fired, no waveform is shown, the exit flag is off and
    no timer is left. *)
Theorem stopAllAudio_clears_waveform_after_timers
    (st : Dashboard.State) (oracle : Request -> Response) (v : string) :
  oracle (Invoke stop_all_audio) = Resolved v ->
  let st' := DashboardEffects.fireAllTimers (fst (exec oracle Dashboard.stopAllAudio st)) in
  Dashboard.activeWaveform st' = None /\
  Dashboard.isWaveformExiting st' = false /\
  Dashboard.timers st' = [] /\
  Dashboard.playingSoundsRef st' = [].
Proof.
  intros Hok st'. subst st'. unfold DashboardEffects.fireAllTimers.
  set (st1 := fst (exec oracle Dashboard.stopAllAudio st)).
  assert (Ht : Dashboard.timers st1
               = Dashboard.timers st ++ [Dashboard.ClearWaveformAndExiting]).
  { subst st1. unfold exec, Dashboard.stopAllAudio. cbn [run]. now rewrite Hok. }
  assert (Hr : Dashboard.playingSoundsRef st1 = []).
  { subst st1. unfold exec, Dashboard.stopAllAudio. cbn [run]. now rewrite Hok. }
  destruct (fireTimers_all (Dashboard.timers st1) st1 eq_refl) as (H1 & H2 & H3).
  cbv zeta in *. split; [|split; [|split]].
  - apply H3. left. rewrite Ht. apply in_or_app. right. now left.
  - apply H2. rewrite Ht. now destruct (Dashboard.timers st).
  - assumption.
  - now rewrite fireTimers_tracking.
Qed.

Lemma stopAllAudio_clears_waveform_after_timers_witness :
  let st := Samples.airhornPlaying in
  let st1 := fst (exec (Samples.accepting "p1") Dashboard.stopAllAudio st) in
  Samples.accepting "p1" (Invoke stop_all_audio) = Resolved EmptyString /\
  Dashboard.activeWaveform st1 = Some (Dashboard.waveformOf Samples.airhorn) /\
  Dashboard.activeWaveform (DashboardEffects.fireAllTimers st1) = None /\
  Dashboard.isWaveformExiting (DashboardEffects.fireAllTimers st1) = false.
Proof.
  destruct (stopAllAudio_clears_waveform_after_timers
              Samples.airhornPlaying (Samples.accepting "p1") EmptyString eq_refl)
    as (Hw & He & _).
  cbv zeta. split; [reflexivity|]. split; [reflexivity|]. split; assumption.
Defined.

Section DashboardRoundTrip.

Import Dashboard.

Lemma findSoundId_app_new p sid (m : JsMap.t) :
  (forall s, ~ In (s, p) m) ->
  findSoundId p (m ++ [(sid, p)]) = Some sid.
Proof.
  induction m as [|[a b] m IH]; simpl; intros H.
  - now rewrite String.eqb_refl.
  - destruct (String.eqb_spec b p) as [->|Hne].
    + exfalso. apply (H a). now left.
    + apply IH. intros s Hin. apply (H s). now right.
Qed.

Lemma JsMap_delete_app_new k v (m : JsMap.t) :
  JsMap.get k m = None -> JsMap.delete k (m ++ [(k, v)]) = m.
Proof.
  induction m as [|[a b] m IH]; simpl.
  - now rewrite String.eqb_refl.
  - destruct (String.eqb a k); [discriminate|]. intros H. now rewrite IH.
Qed.

End DashboardRoundTrip.

(** X7.  A sound that is started and plays to its end leaves the
    tracking state as it found it: from a state reached by completed
    operations in which the sound has no entry, with the devices
    configured, a non-empty sound id and a playback id that no other
    sound holds, a successful [playSound] followed by the completion
    event of the new playback id gives back the ref and the playing
    set. *)
Theorem play_then_complete_restores_tracking
    (d1 d2 : string) (lib : list Dashboard.Sound) (ops : list Dashboard.Op)
    (sound : Dashboard.Sound) (oracle : Request -> Response) (new : string) :
  let st := Dashboard.after ops (Dashboard.initial d1 d2 lib) in
  truthy (Dashboard.device1 st) = true ->
  truthy (Dashboard.device2 st) = true ->
  truthy (Dashboard.sound_id sound) = true ->
  JsMap.get (Dashboard.sound_id sound) (Dashboard.playingSoundsRef st) = None ->
  (forall s, ~ In (s, new) (Dashboard.playingSoundsRef st)) ->
  oracle (Invoke (play_dual_output
                    (Dashboard.playArgs (Dashboard.device1 st) (Dashboard.device2 st)
                                        (Dashboard.volume st) sound))) = Resolved new ->
  let st1 := fst (exec oracle (Dashboard.playSound sound) st) in
  let st2 := Dashboard.onPlaybackComplete new st1 in
  Dashboard.playingSoundsRef st1
    = Dashboard.playingSoundsRef st ++ [(Dashboard.sound_id sound, new)] /\
  Dashboard.playingSoundsRef st2 = Dashboard.playingSoundsRef st /\
  Dashboard.playingSoundIds st2 = Dashboard.playingSoundIds st.
Proof.
  intros st Hd1 Hd2 Hsid Hget Hnew Hplay st1 st2.
  assert (Htr : Dashboard.tracked st) by apply tracked_after, tracked_initial.
  assert (Hnotin : Dashboard.sound_id sound ∉ Dashboard.playingSoundIds st).
  { intros Hin. apply Htr in Hin. unfold JsMap.has in Hin.
    rewrite Hget in Hin. discriminate. }
  assert (H1 : Dashboard.playingSoundsRef st1
               = Dashboard.playingSoundsRef st ++ [(Dashboard.sound_id sound, new)] /\
               Dashboard.playingSoundIds st1
               = Dashboard.playingSoundIds st ∪ {[Dashboard.sound_id sound]}).
  { subst st1. rewrite playSound_exec. cbv zeta. rewrite Hd1, Hd2, Hget. simpl orb.
    cbv iota. rewrite startPlayback_exec. cbv zeta. rewrite Hplay. simpl.
    now rewrite JsMap_set_absent. }
  destruct H1 as [Hr1 Hs1]. split; [assumption|].
  subst st2. unfold Dashboard.onPlaybackComplete, JsMap.entries.
  rewrite Hr1, findSoundId_app_new, Hsid by assumption.
  destruct (completeWaveform_tracking (Dashboard.sound_id sound)
              (Dashboard.untrack (Dashboard.sound_id sound) st1)) as [-> ->].
  simpl. rewrite Hr1, Hs1. split.
  - now apply JsMap_delete_app_new.
  - apply set_eq. intros x.
    rewrite elem_of_difference, elem_of_union, elem_of_singleton.
    split; [tauto|]. intros Hx. split; [tauto|]. congruence.
Qed.

Lemma play_then_complete_restores_tracking_witness :
  let st := Samples.airhornPlaying in
  let st1 := fst (exec (Samples.accepting "p7")
                       (Dashboard.playSound Samples.airhornCopy) st) in
  let st2 := Dashboard.onPlaybackComplete "p7" st1 in
  JsMap.get "b" (Dashboard.playingSoundsRef st) = None /\
  Dashboard.playingSoundsRef st1 = [("a", "p1"); ("b", "p7")] /\
  Dashboard.playingSoundsRef st2 = [("a", "p1")] /\
  Dashboard.playingSoundIds st2 = Dashboard.playingSoundIds st.
Proof.
  assert (Hnew : forall s, ~ In (s, "p7")
                   (Dashboard.playingSoundsRef Samples.airhornPlaying)).
  { intros s [H|[]]. discriminate H. }
  destruct (play_then_complete_restores_tracking
              "mon" "cast" [Samples.airhorn; Samples.airhornCopy]
              [Dashboard.OpPlaySound Samples.airhorn (Samples.accepting "p1")]
              Samples.airhornCopy (Samples.accepting "p7") "p7"
              eq_refl eq_refl eq_refl eq_refl Hnew eq_refl)
    as (H1 & H2 & H3).
  cbv zeta. split; [reflexivity|]. split; [exact H1|]. split; [exact H2|exact H3].
Defined.

(* ===================================================================== *)
(** * WaveformQueue: the processing flag and the delay *)
(* ===================================================================== *)

(** X8.  After any events, [isProcessing] is set exactly while an
    activation of [process] is suspended, of which there is at most
    one; while it is not set the queue is empty, so no request is left
    behind; and the delay, of 20 ms, is awaited only while a request
    waits for the next call. *)
Theorem waveform_queue_flag_and_delay (es : list WaveformQueue.Event) :
  let st := WaveformQueue.runEvents es in
  length (WaveformQueue.procs st) <= 1 /\
  (WaveformQueue.isProcessing st = true <-> WaveformQueue.procs st <> []) /\
  (WaveformQueue.isProcessing st = false -> WaveformQueue.queue st = []) /\
  (forall ms, In (WaveformQueue.AwaitDelay ms) (WaveformQueue.procs st) ->
              ms = 20 /\ WaveformQueue.queue st <> []).
Proof.
  intros st. destruct (consistent_runEvents es) as (_ & _ & Hshape). fold st in Hshape.
  destruct Hshape as [(Hp & Hi & Hq)|[(item & Hp & Hi)|(Hp & Hi & Hq)]];
    rewrite Hp, Hi.
  - split; [simpl; lia|]. split; [split; congruence|]. split; [auto|].
    intros ms [].
  - split; [simpl; lia|]. split; [split; congruence|]. split; [discriminate|].
    intros ms [H|[]]. discriminate H.
  - split; [simpl; lia|]. split; [split; congruence|]. split; [discriminate|].
    intros ms [H|[]]. inversion H. split; [reflexivity|assumption].
Qed.

(** X9.  A request added while the queue is idle is sent to the backend
    at once, without delay; a request added while the queue is busy is
    only appended behind the waiting ones and no call is issued. *)
Theorem waveform_queue_add_dispatch
    (es : list WaveformQueue.Event) (item : WaveformQueue.QueueItem) :
  let st := WaveformQueue.runEvents es in
  let st' := WaveformQueue.add item st in
  if WaveformQueue.isProcessing st
  then WaveformQueue.invoked st' = WaveformQueue.invoked st /\
       WaveformQueue.queue st' = WaveformQueue.queue st ++ [item] /\
       WaveformQueue.procs st' = WaveformQueue.procs st
  else WaveformQueue.invoked st'
         = WaveformQueue.invoked st
             ++ [get_waveform (WaveformQueue.filePath item) (WaveformQueue.numPeaks item)] /\
       WaveformQueue.queue st' = [] /\
       WaveformQueue.procs st' = [WaveformQueue.AwaitInvoke item] /\
       WaveformQueue.isProcessing st' = true.
Proof.
  intros st st'. destruct (consistent_runEvents es) as (_ & _ & Hshape).
  fold st in Hshape. subst st'. unfold WaveformQueue.add, WaveformQueue.process.
  destruct Hshape as [(Hp & Hi & Hq)|[(it & Hp & Hi)|(Hp & Hi & Hq)]];
    rewrite Hi; cbn [WaveformQueue.isProcessing WaveformQueue.queue orb].
  - rewrite Hq, Hp. simpl. auto.
  - auto.
  - auto.
Qed.

(* ===================================================================== *)
(** * Dashboard: the sound grid and the effects *)
(* ===================================================================== *)

Section SortFacts.

Context {A : Type} (le : A -> A -> bool).

Lemma insertSorted_Permutation x l : Permutation (insertSorted le x l) (x :: l).
Proof.
  induction l as [|y l IH]; simpl; [reflexivity|].
  destruct (le x y); [reflexivity|].
  rewrite IH. apply perm_swap.
Qed.

Lemma sortWith_Permutation l : Permutation (sortWith le l) l.
Proof.
  induction l as [|x l IH]; simpl; [reflexivity|].
  rewrite insertSorted_Permutation. now apply perm_skip.
Qed.

Lemma sortWith_In x l : In x (sortWith le l) <-> In x l.
Proof.
  split; apply Permutation_in; [|symmetry]; apply sortWith_Permutation.
Qed.

Hypothesis le_total : forall a b, le a b = true \/ le b a = true.
Hypothesis le_trans : forall a b c, le a b = true -> le b c = true -> le a c = true.

Lemma insertSorted_sorted x l :
  StronglySorted (fun a b => le a b = true) l ->
  StronglySorted (fun a b => le a b = true) (insertSorted le x l).
Proof.
  induction l as [|y l IH]; simpl; intros Hs.
  - constructor; [constructor|constructor].
  - destruct (le x y) eqn:E.
    + constructor; [assumption|]. constructor; [assumption|].
      apply StronglySorted_inv in Hs as [_ Hall].
      rewrite List.Forall_forall in *. intros z Hz. eapply le_trans; eauto.
    + apply StronglySorted_inv in Hs as [Hs Hall].
      constructor; [auto|].
      rewrite List.Forall_forall in *. intros z Hz.
      apply (Permutation_in _ (insertSorted_Permutation x l)) in Hz.
      destruct Hz as [<-|Hz]; [|auto].
      destruct (le_total x y); congruence.
Qed.

Lemma sortWith_sorted l : StronglySorted (fun a b => le a b = true) (sortWith le l).
Proof.
  induction l as [|x l IH]; simpl; [constructor|now apply insertSorted_sorted].
Qed.

(** The head of the sorted list is below every element. *)
Lemma sortWith_head c rest l :
  sortWith le l = c :: rest ->
  In c l /\ forall x, In x l -> le c x = true.
Proof.
  intros H. split.
  - apply sortWith_In. rewrite H. now left.
  - intros x Hx. apply sortWith_In in Hx. rewrite H in Hx.
    pose proof (sortWith_sorted l) as Hs. rewrite H in Hs.
    apply StronglySorted_inv in Hs as [_ Hall].
    destruct Hx as [<-|Hx].
    + destruct (le_total c c); assumption.
    + rewrite List.Forall_forall in Hall. auto.
Qed.

End SortFacts.

Section GridFacts.

Import Dashboard DashboardEffects.

Lemma filter_partition_Permutation {A : Type} (f : A -> bool) (l : list A) :
  Permutation (List.filter f l ++ List.filter (fun x => negb (f x)) l) l.
Proof.
  induction l as [|x l IH]; simpl; [reflexivity|].
  destruct (f x); simpl.
  - now apply perm_skip.
  - rewrite <- Permutation_middle. now apply perm_skip.
Qed.

End GridFacts.

(** X10.  Whatever the collation, the grid shows every sound of the
    selected category exactly once when all sounds are shown: the
    shown list is a rearrangement of the sounds of the library that
    belong to the category.  It consists of the favourites followed by
    the others, and with the favourites filter on it holds favourites
    of the category only. *)
Theorem grid_shows_the_category
    (localeCompare : string -> string -> Z)
    (sounds : list Dashboard.Sound) (selectedCategoryId : string) :
  let shown := DashboardEffects.filteredSounds localeCompare sounds selectedCategoryId in
  Permutation (shown false)
    (List.filter (fun s => String.eqb (Dashboard.category_id s) selectedCategoryId)
                 sounds) /\
  (exists favs others,
      shown false = favs ++ others /\ shown true = favs /\
      Forall (fun s => Dashboard.is_favorite s = true) favs /\
      Forall (fun s => Dashboard.is_favorite s = false) others) /\
  (forall showFavoritesOnly s,
      In s (shown showFavoritesOnly) ->
      In s sounds /\ Dashboard.category_id s = selectedCategoryId).
Proof.
  intros shown. subst shown.
  unfold DashboardEffects.filteredSounds, DashboardEffects.favoriteSounds,
    DashboardEffects.regularSounds, DashboardEffects.categorySounds.
  set (cat := List.filter _ sounds).
  assert (Hcat : forall s, In s cat ->
                  In s sounds /\ Dashboard.category_id s = selectedCategoryId).
  { intros s Hs. apply filter_In in Hs as [Hin Heq].
    apply String.eqb_eq in Heq. auto. }
  split; [|split].
  - rewrite !sortWith_Permutation. apply filter_partition_Permutation.
  - eexists _, _. split; [reflexivity|]. split; [reflexivity|].
    split; apply List.Forall_forall; intros s Hs; apply sortWith_In in Hs;
      apply filter_In in Hs as [_ Hf]; [assumption|].
    now apply negb_true_iff in Hf.
  - intros fav s Hs. apply Hcat. destruct fav.
    + apply sortWith_In in Hs. now apply filter_In in Hs as [Hs _].
    + apply in_app_or in Hs as [Hs|Hs]; apply sortWith_In in Hs;
        now apply filter_In in Hs as [Hs _].
Qed.

(** X11.  For a collation that is total and transitive, the favourites
    and the other sounds of the grid are each in the order of their
    names. *)
Theorem grid_sections_are_sorted_by_name
    (localeCompare : string -> string -> Z)
    (sounds : list Dashboard.Sound) (selectedCategoryId : string) :
  (forall a b, (localeCompare a b <= 0)%Z \/ (localeCompare b a <= 0)%Z) ->
  (forall a b c, (localeCompare a b <= 0)%Z -> (localeCompare b c <= 0)%Z ->
                 (localeCompare a c <= 0)%Z) ->
  let inOrder a b :=
    (localeCompare (Dashboard.sound_name a) (Dashboard.sound_name b) <= 0)%Z in
  StronglySorted inOrder
    (DashboardEffects.favoriteSounds localeCompare sounds selectedCategoryId) /\
  StronglySorted inOrder
    (DashboardEffects.regularSounds localeCompare sounds selectedCategoryId).
Proof.
  intros Htotal Htrans inOrder.
  assert (Hs : forall l, StronglySorted inOrder
                 (sortWith (DashboardEffects.byName localeCompare) l)).
  { intros l.
    pose proof (sortWith_sorted (DashboardEffects.byName localeCompare)) as H.
    assert (Ht : forall a b, DashboardEffects.byName localeCompare a b = true \/
                             DashboardEffects.byName localeCompare b a = true).
    { intros a b. unfold DashboardEffects.byName. rewrite !Z.leb_le. apply Htotal. }
    assert (Hr : forall a b c, DashboardEffects.byName localeCompare a b = true ->
                               DashboardEffects.byName localeCompare b c = true ->
                               DashboardEffects.byName localeCompare a c = true).
    { intros a b c. unfold DashboardEffects.byName. rewrite !Z.leb_le. apply Htrans. }
    specialize (H Ht Hr l). clear Ht Hr.
    induction H as [|x l' Hl IH Hall]; constructor; [assumption|].
    rewrite List.Forall_forall in *. intros y Hy. specialize (Hall y Hy).
    unfold DashboardEffects.byName in Hall. now apply Z.leb_le in Hall. }
  split; apply Hs.
Qed.

Lemma grid_sections_are_sorted_by_name_witness :
  let byLength (a b : string) := (Z.of_nat (String.length a) - Z.of_nat (String.length b))%Z in
  let longName :=
    {| Dashboard.sound_id := "c"; Dashboard.sound_name := "Sad trombone";
       Dashboard.file_path := "C:/sounds/trombone.ogg";
       Dashboard.category_id := "memes"; Dashboard.icon := None;
       Dashboard.sound_volume := None; Dashboard.is_favorite := false;
       Dashboard.trim_start_ms := None; Dashboard.trim_end_ms := None |} in
  (forall a b, (byLength a b <= 0)%Z \/ (byLength b a <= 0)%Z) /\
  (forall a b c, (byLength a b <= 0)%Z -> (byLength b c <= 0)%Z -> (byLength a c <= 0)%Z) /\
  DashboardEffects.regularSounds byLength [longName; Samples.airhorn] "memes"
    = [Samples.airhorn; longName] /\
  StronglySorted
    (fun a b => (byLength (Dashboard.sound_name a) (Dashboard.sound_name b) <= 0)%Z)
    (DashboardEffects.regularSounds byLength [longName; Samples.airhorn] "memes").
Proof.
  intros byLength longName.
  assert (Ht : forall a b, (byLength a b <= 0)%Z \/ (byLength b a <= 0)%Z)
    by (intros a b; unfold byLength; lia).
  assert (Hr : forall a b c, (byLength a b <= 0)%Z -> (byLength b c <= 0)%Z ->
                             (byLength a c <= 0)%Z)
    by (intros a b c; unfold byLength; lia).
  destruct (grid_sections_are_sorted_by_name
              byLength [longName; Samples.airhorn] "memes" Ht Hr) as [_ Hreg].
  split; [exact Ht|]. split; [exact Hr|]. split; [reflexivity|exact Hreg].
Defined.

(** X12.  When the categories have loaded and none is selected, the
    effect selects a category of the library whose sort order is the
    smallest; when a category is selected already, or there is no
    category, the selection is left as it is. *)
Theorem initial_category_has_smallest_order
    (categories : list DashboardEffects.Category) (selectedCategoryId : string) :
  (categories <> [] -> truthy selectedCategoryId = false ->
   exists c, In c categories /\
             DashboardEffects.initialCategory categories selectedCategoryId
               = DashboardEffects.cat_id c /\
             forall c', In c' categories ->
                        (DashboardEffects.sort_order c <= DashboardEffects.sort_order c')%Q) /\
  (categories = [] \/ truthy selectedCategoryId = true ->
   DashboardEffects.initialCategory categories selectedCategoryId = selectedCategoryId).
Proof.
  assert (Hle : forall a b, DashboardEffects.bySortOrder a b = true <->
                  (DashboardEffects.sort_order a <= DashboardEffects.sort_order b)%Q).
  { intros a b. unfold DashboardEffects.bySortOrder. rewrite Qle_bool_iff.
    split; intros H.
    - apply Qplus_le_l with (z := (- DashboardEffects.sort_order b)%Q).
      rewrite Qplus_opp_r. exact H.
    - apply Qplus_le_l with (z := (- DashboardEffects.sort_order b)%Q) in H.
      rewrite Qplus_opp_r in H. exact H. }
  unfold DashboardEffects.initialCategory. split.
  - intros Hne Hsel. rewrite Hsel.
    destruct categories as [|c0 rest]; [congruence|]. cbn [length Nat.ltb Nat.leb andb negb].
    destruct (sortWith DashboardEffects.bySortOrder (c0 :: rest)) as [|c sorted] eqn:E.
    + exfalso. assert (Hin : In c0 (sortWith DashboardEffects.bySortOrder (c0 :: rest)))
        by (apply sortWith_In; now left).
      rewrite E in Hin. destruct Hin.
    + destruct (sortWith_head DashboardEffects.bySortOrder) with (c := c) (rest := sorted)
        (l := c0 :: rest) as [Hin Hmin].
      * intros a b. rewrite !Hle. destruct (Qlt_le_dec (DashboardEffects.sort_order b)
                                               (DashboardEffects.sort_order a)) as [H|H].
        -- right. now apply Qlt_le_weak.
        -- now left.
      * intros a b d. rewrite !Hle. apply Qle_trans.
      * exact E.
      * exists c. split; [assumption|]. split.
        -- destruct (DashboardEffects.cat_id c); reflexivity.
        -- intros c' Hc'. apply Hle. now apply Hmin.
  - intros [->|Hsel]; [reflexivity|]. rewrite Hsel.
    now rewrite andb_false_r.
Qed.

Lemma initial_category_has_smallest_order_witness :
  let general := {| DashboardEffects.cat_id := "general"; DashboardEffects.cat_name := "General";
                    DashboardEffects.cat_icon := None; DashboardEffects.sort_order := 2%Q |} in
  let memes := {| DashboardEffects.cat_id := "memes"; DashboardEffects.cat_name := "Memes";
                  DashboardEffects.cat_icon := None; DashboardEffects.sort_order := 1%Q |} in
  [general; memes] <> [] /\
  truthy EmptyString = false /\
  DashboardEffects.initialCategory [general; memes] EmptyString = "memes" /\
  DashboardEffects.initialCategory [general; memes] "general" = "general".
Proof.
  intros general memes.
  destruct (initial_category_has_smallest_order [general; memes] EmptyString)
    as [Hpick _].
  assert (Hne : [general; memes] <> []) by discriminate.
  destruct (Hpick Hne eq_refl) as (c & _ & Heq & _).
  split; [exact Hne|]. split; [reflexivity|]. split; reflexivity.
Defined.



(* ===================================================================== *)
(** * Importing files *)
(* ===================================================================== *)

Section ImportFacts.

Import JsString ImportDialog.

Implicit Types (s suffix stem ext : string).

Lemma endsWith_spec suffix s :
  endsWith suffix s = true <-> exists stem, s = (stem +:+ suffix).
Proof.
  induction s as [|a r IH]; cbn [endsWith].
  - rewrite orb_false_r, String.eqb_eq. split.
    + intros <-. now exists EmptyString.
    + intros [[|b stem] H]; [exact H|discriminate H].
  - rewrite orb_true_iff, String.eqb_eq, IH. split.
    + intros [<-|[stem ->]]; [now exists EmptyString|].
      exists (String a stem). reflexivity.
    + intros [[|b stem] H].
      * left. exact H.
      * right. rewrite append_String in H. injection H as -> ->. now exists stem.
Qed.

Lemma lower_app s1 s2 : lower (s1 +:+ s2) = (lower s1 +:+ lower s2).
Proof.
  induction s1 as [|a r IH]; [reflexivity|].
  rewrite append_String. cbn [lower]. now rewrite IH, append_String.
Qed.

Lemma lower_split s : forall s1 s2,
  lower s = (s1 +:+ s2) ->
  exists x y, s = (x +:+ y) /\ lower x = s1 /\ lower y = s2.
Proof.
  intros s1. revert s. induction s1 as [|a r IH]; intros s s2 H.
  - exists EmptyString, s. auto.
  - rewrite append_String in H. destruct s as [|b t]; [discriminate H|].
    cbn [lower] in H. injection H as Ha Ht.
    destruct (IH t s2 Ht) as (x & y & -> & Hx & Hy).
    exists (String b x), y. cbn [lower]. rewrite Ha, Hx. auto.
Qed.

End ImportFacts.

(** X14.  A path is taken for an audio file exactly when it ends, in
    any mix of upper and lower case, in [.mp3], [.wav], [.ogg], [.m4a]
    or [.flac]. *)
Theorem audio_file_by_extension (path : string) :
  ImportDialog.isAudioFile path = true <->
  exists stem ext,
    path = (stem +:+ ext) /\
    In (JsString.lower ext) [".mp3"; ".wav"; ".ogg"; ".m4a"; ".flac"].
Proof.
  unfold ImportDialog.isAudioFile. rewrite existsb_exists. split.
  - intros (e & He & Hends). apply endsWith_spec in Hends as [stem Hstem].
    destruct (lower_split _ _ _ Hstem) as (x & y & -> & _ & Hy).
    exists x, y. split; [reflexivity|]. now rewrite Hy.
  - intros (stem & ext & -> & Hin).
    exists (JsString.lower ext). split; [exact Hin|].
    apply endsWith_spec. exists (JsString.lower stem). apply lower_app.
Qed.

Section ImportQueue.

Import ImportDialog.

Lemma skipn_tl {A : Type} (k : nat) (l : list A) : tl (skipn k l) = skipn (S k) l.
Proof.
  revert l. induction k as [|k IH]; intros [|x l]; simpl; try reflexivity.
  apply IH.
Qed.

Lemma hd_error_skipn {A : Type} (k : nat) (l : list A) :
  hd_error (skipn k l) = nth_error l k.
Proof.
  revert l. induction k as [|k IH]; intros [|x l]; simpl; try reflexivity. apply IH.
Qed.

(** Saving a file that is not the last moves on to the next one and
    announces it. *)
Lemma saveNext_moves_on files k st :
  S k < length files ->
  importingAt files k st ->
  importingAt files (S k) (saveNext st) /\
  Dashboard.toastMessage (page (saveNext st))
    = Some ("Adding sounds (" +:+ showNat 2 +:+ "/"
            +:+ showNat (length files - k) +:+ ")").
Proof.
  intros Hk (Hopen & Hedit & Hdrop & Hqueue & Htimers).
  assert (Hlen : length (fileQueue st) = length files - k)
    by (rewrite Hqueue; apply length_skipn).
  unfold saveNext, onSave.
  assert (Hlt : Nat.ltb 1 (length (fileQueue st)) = true)
    by (apply Nat.ltb_lt; lia).
  rewrite Hlt. unfold fireReopen. cbn [reopening]. rewrite Htimers. cbn [app].
  cbn [remainingFiles currentFileNum totalFiles].
  split.
  - unfold importingAt, toast. cbn. rewrite Hqueue, skipn_tl, hd_error_skipn. auto.
  - unfold toast. cbn [page Dashboard.showToast Dashboard.toastMessage].
    assert (Hcur : length (fileQueue st) - length (tl (fileQueue st)) + 1 = 2).
    { rewrite Hqueue, skipn_tl, !length_skipn. lia. }
    now rewrite Hcur, Hlen.
Qed.

Lemma saveNext_iter files st0 :
  2 <= length files ->
  importingAt files 0 st0 ->
  forall k, k < length files ->
  importingAt files k (Nat.iter k saveNext st0) /\
  (1 <= k ->
   Dashboard.toastMessage (page (Nat.iter k saveNext st0))
     = Some ("Adding sounds (" +:+ showNat 2 +:+ "/"
             +:+ showNat (length files - k + 1) +:+ ")")).
Proof.
  intros Hlen H0 k. induction k as [|k IH]; intros Hk.
  - split; [exact H0|lia].
  - destruct IH as [IHat _]; [lia|].
    destruct (saveNext_moves_on files k _ Hk IHat) as [Hat Htoast].
    cbn [Nat.iter nat_rect]. split; [exact Hat|]. intros _.
    change (nat_rect (fun _ => State) st0 (fun _ => saveNext) k)
      with (Nat.iter k saveNext st0).
    rewrite Htoast. replace (length files - S k + 1) with (length files - k) by lia.
    reflexivity.
Qed.

(** Saving the last file ends the import. *)
Lemma saveNext_last files k st :
  S k = length files ->
  importingAt files k st ->
  fileQueue (saveNext st) = [] /\ droppedFilePath (saveNext st) = None /\
  reopening (saveNext st) = [] /\
  Dashboard.toastMessage (page (saveNext st))
    = Some ("Successfully added " +:+ showNat 1 +:+ " sounds!").
Proof.
  intros Hk (Hopen & Hedit & Hdrop & Hqueue & Htimers).
  assert (Hlen : length (fileQueue st) = 1)
    by (rewrite Hqueue, length_skipn; lia).
  unfold saveNext, onSave. rewrite Hlen. cbn [Nat.ltb Nat.leb].
  unfold fireReopen, toast. cbn. rewrite Htimers. cbn. auto.
Qed.

Lemma saveNext_done files st0 :
  2 <= length files ->
  importingAt files 0 st0 ->
  fileQueue (Nat.iter (length files) saveNext st0) = [] /\
  droppedFilePath (Nat.iter (length files) saveNext st0) = None /\
  Dashboard.toastMessage (page (Nat.iter (length files) saveNext st0))
    = Some ("Successfully added " +:+ showNat 1 +:+ " sounds!").
Proof.
  intros Hlen H0.
  assert (Hn : exists n, length files = S n)
    by (exists (pred (length files)); lia).
  destruct Hn as [n En].
  destruct (saveNext_iter files _ Hlen H0 n) as [Hat _]; [lia|].
  destruct (saveNext_last files n _ (eq_sym En) Hat) as (Hq & Hd & _ & Ht).
  rewrite En. cbn [Nat.iter nat_rect]. auto.
Qed.

Lemma onFileDrop_starts paths st :
  2 <= length (List.filter isAudioFile paths) ->
  reopening st = [] ->
  importingAt (List.filter isAudioFile paths) 0 (onFileDrop paths st).
Proof.
  intros Hlen Htimers. unfold onFileDrop.
  destruct (List.filter isAudioFile paths) as [|f [|g rest]] eqn:E;
    simpl in Hlen; try lia.
  unfold importingAt, openModalFor, toast. cbn. auto.
Qed.

End ImportQueue.

(** X15.  After a drop with at least two audio files among the paths,
    the modal opens on the first of them; each save reopens it on the
    next audio file, so that after [k] saves it stands on the file of
    that index with the files from there on queued; the save of the
    last file empties the queue and leaves no file preselected.  The
    files that are not audio files are never shown. *)
Theorem dropped_files_are_imported_in_order
    (paths : list string) (st : ImportDialog.State) :
  let files := List.filter ImportDialog.isAudioFile paths in
  let afterSaves k := Nat.iter k ImportDialog.saveNext (ImportDialog.onFileDrop paths st) in
  2 <= length files ->
  ImportDialog.reopening st = [] ->
  (forall k, k < length files ->
     ImportDialog.isModalOpen (afterSaves k) = true /\
     ImportDialog.droppedFilePath (afterSaves k) = nth_error files k /\
     ImportDialog.fileQueue (afterSaves k) = skipn k files) /\
  ImportDialog.fileQueue (afterSaves (length files)) = [] /\
  ImportDialog.droppedFilePath (afterSaves (length files)) = None.
Proof.
  intros files afterSaves Hlen Htimers.
  pose proof (onFileDrop_starts paths st Hlen Htimers) as H0. fold files in H0.
  split.
  - intros k Hk. destruct (saveNext_iter files _ Hlen H0 k Hk) as [(H1 & _ & H3 & H4 & _) _].
    auto.
  - destruct (saveNext_done files _ Hlen H0) as (Hq & Hd & _). auto.
Qed.

Lemma dropped_files_are_imported_in_order_witness :
  let paths := ["C:/in/a.mp3"; "C:/in/notes.txt"; "C:/in/b.WAV"; "C:/in/c.flac"] in
  let st := {| ImportDialog.page := Samples.mounted;
               ImportDialog.isModalOpen := false;
               ImportDialog.editingSound := None;
               ImportDialog.droppedFilePath := None;
               ImportDialog.fileQueue := [];
               ImportDialog.reopening := [] |} in
  let afterSaves k := Nat.iter k ImportDialog.saveNext (ImportDialog.onFileDrop paths st) in
  List.filter ImportDialog.isAudioFile paths
    = ["C:/in/a.mp3"; "C:/in/b.WAV"; "C:/in/c.flac"] /\
  ImportDialog.droppedFilePath (afterSaves 1) = Some "C:/in/b.WAV" /\
  ImportDialog.fileQueue (afterSaves 3) = [].
Proof.
  intros paths st afterSaves.
  assert (Hlen : 2 <= length (List.filter ImportDialog.isAudioFile paths))
    by (vm_compute; lia).
  destruct (dropped_files_are_imported_in_order paths st Hlen eq_refl)
    as (Hk & Hq & _).
  assert (H1 : 1 < length (List.filter ImportDialog.isAudioFile paths))
    by (vm_compute; lia).
  destruct (Hk 1 H1) as (_ & Hd & _).
  split; [reflexivity|]. split; [exact Hd|exact Hq].
Defined.

(** X16.  During an import of several files the toast shown when the
    modal reopens after the [k]-th save reads position 2 of as many
    files as were queued at that save, that is of
    [length files - k + 1], and the toast after the last save reports
    1 sound added, whatever the number of files imported. *)
Theorem import_toasts_count_from_the_queue
    (paths : list string) (st : ImportDialog.State) (k : nat) :
  let files := List.filter ImportDialog.isAudioFile paths in
  let afterSaves k := Nat.iter k ImportDialog.saveNext (ImportDialog.onFileDrop paths st) in
  2 <= length files ->
  ImportDialog.reopening st = [] ->
  1 <= k < length files ->
  Dashboard.toastMessage (ImportDialog.page (afterSaves k))
    = Some ("Adding sounds (2/"
            +:+ ImportDialog.showNat (length files - k + 1) +:+ ")") /\
  Dashboard.toastMessage (ImportDialog.page (afterSaves (length files)))
    = Some "Successfully added 1 sounds!".
Proof.
  intros files afterSaves Hlen Htimers [Hk1 Hk].
  pose proof (onFileDrop_starts paths st Hlen Htimers) as H0. fold files in H0.
  split.
  - destruct (saveNext_iter files _ Hlen H0 k Hk) as [_ Htoast].
    subst afterSaves. cbv beta. rewrite (Htoast Hk1). reflexivity.
  - destruct (saveNext_done files _ Hlen H0) as (_ & _ & Htoast).
    subst afterSaves. cbv beta. rewrite Htoast. reflexivity.
Qed.

Lemma import_toasts_count_from_the_queue_witness :
  let paths := ["C:/in/a.mp3"; "C:/in/b.WAV"; "C:/in/c.flac"] in
  let st := {| ImportDialog.page := Samples.mounted;
               ImportDialog.isModalOpen := false;
               ImportDialog.editingSound := None;
               ImportDialog.droppedFilePath := None;
               ImportDialog.fileQueue := [];
               ImportDialog.reopening := [] |} in
  let afterSaves k := Nat.iter k ImportDialog.saveNext (ImportDialog.onFileDrop paths st) in
  Dashboard.toastMessage (ImportDialog.page (afterSaves 0))
    = Some "Adding 3 sounds (1/3)" /\
  Dashboard.toastMessage (ImportDialog.page (afterSaves 1))
    = Some "Adding sounds (2/3)" /\
  Dashboard.toastMessage (ImportDialog.page (afterSaves 2))
    = Some "Adding sounds (2/2)" /\
  Dashboard.toastMessage (ImportDialog.page (afterSaves 3))
    = Some "Successfully added 1 sounds!".
Proof.
  intros paths st afterSaves.
  assert (Hlen : 2 <= length (List.filter ImportDialog.isAudioFile paths))
    by (vm_compute; lia).
  assert (H2 : 1 <= 2 < length (List.filter ImportDialog.isAudioFile paths))
    by (vm_compute; lia).
  destruct (import_toasts_count_from_the_queue paths st 2 Hlen eq_refl H2)
    as (Hmid & Hlast).
  split; [reflexivity|]. split; [reflexivity|]. split; [exact Hmid|exact Hlast].
Defined.

(* ===================================================================== *)
(** * VB-Cable installation *)
(* ===================================================================== *)

(** Settle the calls of a run one after the other, by what the backend
    answers; the goal reads [run = result -> property]. *)
Ltac answer oracle :=
  repeat (lazy beta iota zeta delta [Async.run];
          match goal with
          | |- ?run = _ -> _ =>
              match run with
              | context [oracle ?A ?c] => destruct (oracle A c) eqn:?
              | context [if String.eqb ?a ?b then _ else _] =>
                  destruct (String.eqb a b) eqn:?
              | context [VbCable.findVbCable ?l] =>
                  destruct (VbCable.findVbCable l) eqn:?
              | context [if ?b then _ else _] => is_var b; destruct b
              | context [match ?o with Some _ => _ | None => _ end] =>
                  is_var o; destruct o
              end
          end).

(** Follow two backends that agree on all but the restore command. *)
Ltac answerBoth o1 o2 H :=
  repeat (lazy beta iota zeta delta [Async.run];
          match goal with
          | |- context [o2 ?A ?c] => rewrite <- (H A c) by (cbn; discriminate)
          | |- context [o1 ?A ?c] => destruct (o1 A c) eqn:?
          | |- context [if String.eqb ?a ?b then _ else _] =>
              destruct (String.eqb a b) eqn:?
          | |- context [VbCable.findVbCable ?l] =>
              destruct (VbCable.findVbCable l) eqn:?
          | |- context [if ?b then _ else _] => is_var b; destruct b
          | |- context [match ?o with Some _ => _ | None => _ end] =>
              is_var o; destruct o
          end).

Section InstallFacts.

Import Settings Async VbCable.

Lemma startsWith_spec p s :
  HotkeyDisplay.startsWith p s = true <-> exists post, s = (p +:+ post).
Proof.
  revert s. induction p as [|a p IH]; intros s.
  - split; [intros _; now exists s|reflexivity].
  - destruct s as [|b s].
    + split; [discriminate|]. intros [post H]. rewrite append_String in H. discriminate H.
    + rewrite startsWith_cons, andb_true_iff, Ascii.eqb_eq, IH. split.
      * intros [-> [post ->]]. exists post. now rewrite append_String.
      * intros [post H]. rewrite append_String in H. injection H as -> ->.
        split; [reflexivity|now exists post].
Qed.

Lemma includes_spec needle s :
  JsString.includes needle s = true <->
  exists pre post, s = (pre +:+ needle +:+ post).
Proof.
  induction s as [|a r IH]; cbn [JsString.includes].
  - rewrite orb_false_r, startsWith_spec. split.
    + intros [post H]. now exists EmptyString, post.
    + intros [[|b pre] [post H]]; [now exists post|].
      rewrite append_String in H. discriminate H.
  - rewrite orb_true_iff, startsWith_spec, IH. split.
    + intros [[post H]|(pre & post & ->)].
      * now exists EmptyString, post.
      * exists (String a pre), post. now rewrite append_String.
    + intros [[|b pre] [post H]].
      * left. now exists post.
      * right. rewrite append_String in H. injection H as -> ->. now exists pre, post.
Qed.

End InstallFacts.



(** X18.  The installation first saves the default devices and does
    nothing else if that fails.  A failed install ends the run: the
    defaults are not restored and nothing is cleaned up.  After a
    successful install the handler waits 3000 ms and then restores
    exactly the defaults it saved; the rest of the run begins with the
    refresh of the device list and neither installs nor restores
    again. *)
Theorem install_saves_first_and_restores_what_it_saved
    (oracle : Async.Oracle) (settings : option Settings.AppSettings)
    (hasOnDeviceChange : bool) (st : VbCable.State) :
  let trace := snd (Async.exec oracle (VbCable.handleInstall settings hasOnDeviceChange) st) in
  match oracle _ Async.save_all_default_devices,
        oracle _ Async.start_vb_cable_install with
  | Async.Err _, _ => trace = [Async.Called Async.save_all_default_devices]
  | Async.Ok _, Async.Err _ =>
      trace = [Async.Called Async.save_all_default_devices;
               Async.Called Async.start_vb_cable_install]
  | Async.Ok savedDefaults, Async.Ok _ =>
      exists rest,
        trace = [Async.Called Async.save_all_default_devices;
                 Async.Called Async.start_vb_cable_install;
                 Async.Waited 3000;
                 Async.Called (Async.restore_all_default_devices savedDefaults)]
                ++ rest /\
        hd_error (Async.calls rest) = Some "refreshDevices" /\
        Async.restored rest = [] /\
        ~ In "start_vb_cable_install" (Async.calls rest)
  end.
Proof.
  intros trace.
  destruct (Async.exec oracle (VbCable.handleInstall settings hasOnDeviceChange) st)
    as [final trace'] eqn:E.
  subst trace. cbn [snd]. revert E.
  unfold Async.exec, VbCable.handleInstall, VbCable.refresh, VbCable.checkAndSelect,
    VbCable.cleanup, VbCable.installFailed.
  answer oracle; intros [= _ <-]; try reflexivity;
    (eexists; split; [reflexivity|]); lazy;
    (split; [reflexivity|]); (split; [reflexivity|]);
    intros Hin; intuition discriminate.
Qed.

(** X19.  Whether the defaults could be restored makes no difference
    to the run: two backends that answer every other call alike lead
    to the same final state by the same calls. *)
Theorem restore_failure_is_not_fatal
    (oracle1 oracle2 : Async.Oracle) (settings : option Settings.AppSettings)
    (hasOnDeviceChange : bool) (st : VbCable.State) :
  (forall A (c : Async.Command A),
     Async.name c <> "restore_all_default_devices" -> oracle1 A c = oracle2 A c) ->
  Async.exec oracle1 (VbCable.handleInstall settings hasOnDeviceChange) st
  = Async.exec oracle2 (VbCable.handleInstall settings hasOnDeviceChange) st.
Proof.
  intros Hagree.
  unfold Async.exec, VbCable.handleInstall, VbCable.refresh, VbCable.checkAndSelect,
    VbCable.cleanup, VbCable.installFailed.
  answerBoth oracle1 oracle2 Hagree; reflexivity.
Qed.

Lemma restore_failure_is_not_fatal_witness :
  Async.exec Backends.allOk (VbCable.handleInstall None true) VbCable.initial
  = Async.exec Backends.restoreFails (VbCable.handleInstall None true) VbCable.initial /\
  VbCable.error
    (fst (Async.exec Backends.restoreFails (VbCable.handleInstall None true)
            VbCable.initial)) = None.
Proof.
  split; [|reflexivity].
  apply restore_failure_is_not_fatal.
  intros A c; destruct c; intros H; try reflexivity.
  exfalso; apply H; reflexivity.
Defined.

(** X20.  An installation saves settings at most once, and only to
    make the cable the broadcast device: when it does, the new status
    is [installed], the settings saved are those the component held
    with the broadcast device set to the identifier of the device that
    [findVbCable] picks from the fresh device list, and everything
    else in them is kept.  Conversely, when every step up to the
    device list succeeds, the status is [installed], a cable device is
    listed and the component holds settings, these settings are
    saved. *)
Theorem install_selects_the_cable_as_broadcast_device
    (oracle : Async.Oracle) (settings : option Settings.AppSettings)
    (hasOnDeviceChange : bool) (st : VbCable.State) :
  let trace := snd (Async.exec oracle (VbCable.handleInstall settings hasOnDeviceChange) st) in
  let selected newStatus devices vbCableDevice current :=
    oracle _ Async.check_vb_cable_status = Async.Ok newStatus /\
    Async.vb_status newStatus = "installed" /\
    oracle _ Async.list_audio_devices = Async.Ok devices /\
    VbCable.findVbCable devices = Some vbCableDevice /\
    settings = Some current in
  (Async.saved trace = [] \/
   exists newStatus devices vbCableDevice current,
     selected newStatus devices vbCableDevice current /\
     Async.saved trace =
       [Settings.updateSetting Settings.k_broadcast_device_id
          (Some (DashboardEffects.device_id vbCableDevice)) current]) /\
  (forall savedDefaults newStatus devices vbCableDevice current,
     oracle _ Async.save_all_default_devices = Async.Ok savedDefaults ->
     oracle _ Async.start_vb_cable_install = Async.Ok tt ->
     oracle _ Async.refreshDevices = Async.Ok tt ->
     (hasOnDeviceChange = true -> oracle _ Async.onDeviceChange = Async.Ok tt) ->
     selected newStatus devices vbCableDevice current ->
     Async.saved trace =
       [Settings.updateSetting Settings.k_broadcast_device_id
          (Some (DashboardEffects.device_id vbCableDevice)) current]).
Proof.
  intros trace selected.
  destruct (Async.exec oracle (VbCable.handleInstall settings hasOnDeviceChange) st)
    as [final trace'] eqn:E.
  subst trace selected. cbn [snd]. revert E.
  unfold Async.exec, VbCable.handleInstall, VbCable.refresh, VbCable.checkAndSelect,
    VbCable.cleanup, VbCable.installFailed.
  answer oracle; intros [= _ <-];
    repeat match goal with
           | E : String.eqb _ _ = true |- _ => apply String.eqb_eq in E
           | E : String.eqb _ _ = false |- _ => apply String.eqb_neq in E
           end;
    cbn [Async.saved flat_map app];
    (split;
     [ first [ left; reflexivity
             | right; do 4 eexists; split; [|reflexivity];
               repeat split; eassumption ]
     | intros d s l v cur H1 H2 H3 H4 (H5 & H6 & H7 & H8 & H9);
       try specialize (H4 eq_refl);
       first [congruence | simplify_eq; reflexivity] ]).
Qed.

Lemma install_selects_the_cable_as_broadcast_device_witness :
  Async.saved
    (snd (Async.exec Backends.allOk
            (VbCable.handleInstall (Some Settings.initialSettings) true)
            VbCable.initial))
  = [Settings.updateSetting Settings.k_broadcast_device_id (Some "out-7")
       Settings.initialSettings].
Proof.
  destruct (install_selects_the_cable_as_broadcast_device Backends.allOk
              (Some Settings.initialSettings) true VbCable.initial) as [_ H].
  apply (H "defaults"
           {| Async.vb_status := "installed";
              Async.vb_output_device := Some "CABLE Input" |}
           [Backends.speakers; Backends.cableInput] Backends.cableInput
           Settings.initialSettings);
    try reflexivity.
  repeat split; reflexivity.
Defined.

(** X21.  The device chosen as the cable is the first of the list
    whose name, with its ASCII letters in lower case, contains
    [cable input]; none is chosen exactly when no listed name does. *)
Theorem cable_device_is_first_match
    (devices : list DashboardEffects.AudioDevice) :
  let isCable d :=
    exists pre post,
      JsString.lower (DashboardEffects.device_name d)
      = (pre +:+ "cable input" +:+ post) in
  (forall d, VbCable.findVbCable devices = Some d <->
     exists before after,
       devices = before ++ d :: after /\ isCable d /\
       forall x, In x before -> ~ isCable x) /\
  (VbCable.findVbCable devices = None <-> forall x, In x devices -> ~ isCable x).
Proof.
  intros isCable. subst isCable. unfold VbCable.findVbCable.
  induction devices as [|x l [IHsome IHnone]]; cbn [List.find].
  - split.
    + intros d. split; [discriminate|].
      intros ([|b before] & after & H & _); discriminate H.
    + split; [intros _ y []|reflexivity].
  - destruct (JsString.includes "cable input"
                (JsString.lower (DashboardEffects.device_name x))) eqn:Hx.
    + apply includes_spec in Hx. split.
      * intros d. split.
        -- intros [= <-]. exists [], l. split; [reflexivity|]. split; [exact Hx|].
           intros y [].
        -- intros ([|b before] & after & H & Hd & Hfirst).
           ++ now injection H as ->.
           ++ injection H as <- _. exfalso. apply (Hfirst x); [now left|exact Hx].
      * split; [discriminate|]. intros H. exfalso. apply (H x); [now left|exact Hx].
    + assert (Hnot : ~ exists pre post,
                 JsString.lower (DashboardEffects.device_name x)
                 = (pre +:+ "cable input" +:+ post)).
      { intros H. apply includes_spec in H. rewrite H in Hx. discriminate Hx. }
      split.
      * intros d. rewrite IHsome. split.
        -- intros (before & after & -> & Hd & Hfirst).
           exists (x :: before), after. split; [reflexivity|]. split; [exact Hd|].
           intros y [<-|Hy]; [exact Hnot|now apply Hfirst].
        -- intros ([|b before] & after & H & Hd & Hfirst).
           ++ injection H as -> _. contradiction.
           ++ injection H as <- ->. exists before, after.
              split; [reflexivity|]. split; [exact Hd|].
              intros y Hy. apply Hfirst. now right.
      * rewrite IHnone. split.
        -- intros H y [<-|Hy]; [exact Hnot|now apply H].
        -- intros H y Hy. apply H. now right.
Qed.

(* ===================================================================== *)
(** * Settings page *)
(* ===================================================================== *)


(* ===================================================================== *)
(** * Importing through the file dialog *)
(* ===================================================================== *)

(** X23.  Files picked in the dialog of the Add button are imported as
    dropped files are: for a selection with at least one audio file
    the handler leaves the state that a drop of the same paths leaves,
    for several paths and for a single one alike; a cancelled dialog
    changes nothing. *)
Theorem picked_files_are_imported_as_dropped_ones
    (paths : list string) (path : string) (st : ImportDialog.State) :
  List.filter ImportDialog.isAudioFile paths <> [] ->
  ImportDialog.isAudioFile path = true ->
  ImportDialog.handleAddSound (ImportDialog.SeveralFiles paths) st
  = ImportDialog.onFileDrop paths st /\
  ImportDialog.handleAddSound (ImportDialog.OneFile path) st
  = ImportDialog.onFileDrop [path] st /\
  ImportDialog.handleAddSound ImportDialog.Cancelled st = st.
Proof.
  intros Hsome Haudio. unfold ImportDialog.handleAddSound, ImportDialog.onFileDrop.
  split; [|split; [|reflexivity]].
  - destruct (List.filter ImportDialog.isAudioFile paths); [contradiction|reflexivity].
  - destruct path as [|a r]; [discriminate Haudio|].
    cbn [truthy List.filter]. rewrite Haudio. reflexivity.
Qed.

Lemma picked_files_are_imported_as_dropped_ones_witness :
  let st := {| ImportDialog.page := Samples.mounted;
               ImportDialog.isModalOpen := false;
               ImportDialog.editingSound := None;
               ImportDialog.droppedFilePath := None;
               ImportDialog.fileQueue := [];
               ImportDialog.reopening := [] |} in
  ImportDialog.fileQueue
    (ImportDialog.handleAddSound
       (ImportDialog.SeveralFiles ["C:/in/a.mp3"; "C:/in/b.ogg"]) st)
  = ["C:/in/a.mp3"; "C:/in/b.ogg"] /\
  ImportDialog.droppedFilePath
    (ImportDialog.handleAddSound (ImportDialog.OneFile "C:/in/c.M4A") st)
  = Some "C:/in/c.M4A".
Proof.
  intros st.
  assert (Hsome : List.filter ImportDialog.isAudioFile ["C:/in/a.mp3"; "C:/in/b.ogg"] <> [])
    by (vm_compute; discriminate).
  destruct (picked_files_are_imported_as_dropped_ones
              ["C:/in/a.mp3"; "C:/in/b.ogg"] "C:/in/c.M4A" st Hsome eq_refl)
    as (Hseveral & Hone & _).
  rewrite Hseveral, Hone. split; reflexivity.
Defined.
